(** * ASHF (AEROCAT Secure Hash Function), [Main.js]

    A shallow embedding of [src/Main.js] and the properties of its two
    generations of code:

    - the legacy [vortexEncrypt] with its helpers [createDynamicSBox],
      [avalancheEffect] and [bytesToHex];
    - the v1.0.1 pipeline [enhancedVortexEncrypt] / [processData] /
      [applyAvalancheEffect].

    JavaScript numbers are modelled as [Z] (every number the code computes
    is an integer far below 2^53, so double arithmetic is exact), together
    with the two non-numeric results the legacy code really produces,
    [NaN] and [undefined].  A [Uint8Array] is a [list Z] whose stores go
    through [ToUint8]; a plain array is a [list value]. *)

From Stdlib Require Import ZArith Znumtheory Lia String Ascii.
From stdpp Require Import base tactics option list numbers finite.

Local Open Scope Z_scope.

(** ** The fragment of JavaScript the code relies on *)

Module JS.

Inductive value : Type :=
| Num (z : Z)
| NaN
| Undefined.

#[global] Instance value_eq_dec : EqDecision value.
Proof. solve_decision. Defined.

#[global] Instance Num_inj : Inj (=) (=) Num.
Proof. by intros x y [= ->]. Qed.

(** The objects that reach an indexing or a [.length]: typed byte arrays
    and pending promises ([crypto.subtle.digest(..).then(..)]). *)
Inductive object : Type :=
| Bytes (l : list Z)
| Promise.

(** [ToInt32], [ToUint32] and [ToUint8] of ECMA-262 on these values. *)
Definition wrap32 (z : Z) : Z :=
  let m := z mod 2 ^ 32 in if m <? 2 ^ 31 then m else m - 2 ^ 32.

Definition ToInt32 (v : value) : Z :=
  match v with Num z => wrap32 z | NaN | Undefined => 0 end.

Definition ToUint32 (v : value) : Z :=
  match v with Num z => z mod 2 ^ 32 | NaN | Undefined => 0 end.

Definition ToUint8 (v : value) : Z :=
  match v with Num z => z mod 256 | NaN | Undefined => 0 end.

(** Binary operators.  [undefined] converts to [NaN] in arithmetic and to
    [0] in bit operations. *)
Definition add (a b : value) : value :=
  match a, b with Num x, Num y => Num (x + y) | _, _ => NaN end.

Definition mul (a b : value) : value :=
  match a, b with Num x, Num y => Num (x * y) | _, _ => NaN end.

(** [a % b]: the remainder has the sign of the dividend; [x % 0] is NaN. *)
Definition rem (a b : value) : value :=
  match a, b with
  | Num x, Num y => if decide (y = 0) then NaN else Num (Z.rem x y)
  | _, _ => NaN
  end.

Definition bitxor (a b : value) : value :=
  Num (wrap32 (Z.lxor (ToInt32 a) (ToInt32 b))).

Definition bitand (a b : value) : value :=
  Num (wrap32 (Z.land (ToInt32 a) (ToInt32 b))).

Definition bitor (a b : value) : value :=
  Num (wrap32 (Z.lor (ToInt32 a) (ToInt32 b))).

Definition shl (a b : value) : value :=
  Num (wrap32 (Z.shiftl (ToInt32 a) (Z.land (ToUint32 b) 31))).

Definition ushr (a b : value) : value :=
  Num (Z.shiftr (ToUint32 a) (Z.land (ToUint32 b) 31)).

(** Reading [a[k]] from a plain array: an integer index inside the array
    gives the element, anything else [undefined]. *)
Definition get (a : list value) (k : value) : value :=
  match k with
  | Num n => if decide (0 ≤ n) then default Undefined (a !! Z.to_nat n) else Undefined
  | NaN | Undefined => Undefined
  end.

(** Reading [t[k]] from a typed array. *)
Definition u8_get (t : list Z) (k : value) : value :=
  match k with
  | Num n => if decide (0 ≤ n) then from_option Num Undefined (t !! Z.to_nat n) else Undefined
  | NaN | Undefined => Undefined
  end.

(** Writing [t[k] = v] to a typed array: the value is converted with
    [ToUint8]; a key that is not an index of the array is ignored. *)
Definition u8_set (t : list Z) (k : value) (v : value) : list Z :=
  match k with
  | Num n => if decide (0 ≤ n) then <[Z.to_nat n := ToUint8 v]> t else t
  | NaN | Undefined => t
  end.

(** [o.length] and [o[k]] on an object. *)
Definition length_of (o : object) : value :=
  match o with
  | Bytes l => Num (Z.of_nat (length l))
  | Promise => Undefined
  end.

Definition index (o : object) (k : value) : value :=
  match o with
  | Bytes l => u8_get l k
  | Promise => Undefined
  end.

(** [t.map(f)] on a typed array: a typed array again. *)
Definition u8_map (f : Z → nat → value) (t : list Z) : list Z :=
  imap (λ i b, ToUint8 (f b i)) t.

(** A value is a byte when it is what a [Uint8Array] can hold. *)
Definition byte (z : Z) : Prop := 0 ≤ z < 256.

#[global] Instance byte_dec z : Decision (byte z).
Proof. unfold byte. apply _. Defined.

End JS.

Import JS.

(** ** [createDynamicSBox] *)

(** The table is a plain array of 256 cells.  A swap index that is [NaN]
    (key without a usable [length]) addresses the property ["NaN"] of the
    array object, kept in [nan_prop]. *)
Record sbox : Type := SBox { cells : list value; nan_prop : value }.

Definition sbox_get (s : sbox) (k : value) : value :=
  match k with
  | NaN => nan_prop s
  | _ => get (cells s) k
  end.

(** The swap index is a remainder modulo 256, so a numeric key is below
    256 in absolute value and never extends the array; a negative one
    (never produced from byte keys) would name a property of its own and
    leaves the cells alone. *)
Definition sbox_set (s : sbox) (k : value) (v : value) : sbox :=
  match k with
  | Num n =>
      if decide (0 ≤ n) then SBox (<[Z.to_nat n := v]> (cells s)) (nan_prop s) else s
  | NaN => SBox (cells s) v
  | Undefined => s
  end.

Definition swapIdx (key : object) (i : Z) : value :=
  rem (add (index key (rem (Num i) (length_of key))) (mul (Num i) (Num 179426549)))
      (Num 256).

(** [[sBox[i], sBox[swapIdx]] = [sBox[swapIdx], sBox[i]]]: the right-hand
    array is built first, then the two targets are assigned left to right. *)
Definition sbox_swap (key : object) (s : sbox) (i : Z) : sbox :=
  let j := swapIdx key i in
  let a := sbox_get s j in
  let b := sbox_get s (Num i) in
  sbox_set (sbox_set s (Num i) a) j b.

Definition sbox_init : sbox := SBox (Num <$> seqZ 0 256) Undefined.

Definition createDynamicSBox (key : object) : sbox :=
  foldl (sbox_swap key) sbox_init (seqZ 0 256).

(** The table after the first [n] iterations of the loop. *)
Definition sbox_prefix (key : object) (n : nat) : sbox :=
  foldl (sbox_swap key) sbox_init (seqZ 0 (Z.of_nat n)).

(** Trial division: no [d] with [2 <= d < 2 + bound] divides [p]. *)
Definition no_divisor_below (p bound : Z) : bool :=
  forallb (λ d, negb (p mod d =? 0)) (seqZ 2 bound).

(** ** [avalancheEffect] (legacy helper)

    [state.map((b, i) => (b ^ prev ^ next) + (prev & next))] on the
    [Uint8Array] that [vortexEncrypt] passes: one simultaneous pass, each
    result stored back as a byte. *)
Definition avalancheEffect (state : list Z) : list Z :=
  let len := Num (Z.of_nat (length state)) in
  u8_map (λ b i,
    let prev := u8_get state (rem (add (add (Num (Z.of_nat i)) (Num (-1))) len) len) in
    let next := u8_get state (rem (add (Num (Z.of_nat i)) (Num 1)) len) in
    add (bitxor (bitxor (Num b) prev) next) (bitand prev next)) state.

(** ** [applyAvalancheEffect] (v1.0.1)

    The callback of [state.forEach] updates the typed array in place, so
    an index that wraps around reads bytes this round has already
    rewritten.  The listing of [src/Main.js] stops after the multiply
    statement; the callback is closed there and the array returned, as
    the function's [@returns] says. *)
Definition avalanche_step (state : list Z) (index : nat) : list Z :=
  let k := Num (Z.of_nat index) in
  let len := Num (Z.of_nat (length state)) in
  (* state[index] ^= state[(index + 7) % state.length]; *)
  let state1 :=
    u8_set state k (bitxor (u8_get state k) (u8_get state (rem (add k (Num 7)) len))) in
  (* state[index] = (state[index] * 0x1F) % 256; *)
  u8_set state1 k (rem (mul (u8_get state1 k) (Num 31)) (Num 256)).

Definition avalanche_round (state : list Z) : list Z :=
  foldl avalanche_step state (seq 0 (length state)).

(** [new Uint8Array(buffer)] copies, converting every element to a byte. *)
Definition u8_copy (buffer : list Z) : list Z := (λ b, ToUint8 (Num b)) <$> buffer.

Definition applyAvalancheEffect (buffer : list Z) : list Z :=
  Nat.iter 3 avalanche_round (u8_copy buffer).

(** ** [bytesToHex] *)

Definition hex_digit (d : Z) : ascii :=
  match d with
  | 0 => "0" | 1 => "1" | 2 => "2" | 3 => "3" | 4 => "4" | 5 => "5" | 6 => "6"
  | 7 => "7" | 8 => "8" | 9 => "9" | 10 => "a" | 11 => "b" | 12 => "c"
  | 13 => "d" | 14 => "e" | _ => "f"
  end%char.

(** [b.toString(16).padStart(2, '0')] for a byte [b]. *)
Definition hex_byte (b : Z) : string :=
  String (hex_digit (b / 16)) (String (hex_digit (b mod 16)) EmptyString).

(** [Array.from(new Uint8Array(buffer)).map(..).join('')]: the elements
    are converted to bytes first. *)
Definition bytesToHex (buffer : list Z) : string :=
  foldr (λ b acc, append (hex_byte b) acc) EmptyString (u8_copy buffer).

(** What the two statements of the callback leave at [index] when the
    byte there is [b] and the byte read at [(index + 7) % length] is [s]. *)
Definition avalanche_mix (b s : Z) : Z := (Z.lxor b s * 31) mod 256.

(** The byte the callback reads at [(i + 7) % length] in a round that
    starts from [state] and ends in [out]: positions below [i] have been
    rewritten by then, the others still hold the round's input. *)
Definition avalanche_partner (state out : list Z) (i : nat) : option Z :=
  let j := ((i + 7) mod length state)%nat in
  if decide (j < i)%nat then out !! j else state !! j.

(** The value [avalancheEffect] computes from a byte and its neighbours. *)
Definition neighbour_mix (b prev next : Z) : Z :=
  (Z.lxor (Z.lxor b prev) next + Z.land prev next) mod 256.

(** The value of a hexadecimal digit, to read [bytesToHex] back. *)
Definition hex_value (c : ascii) : Z :=
  match c with
  | "0" => 0 | "1" => 1 | "2" => 2 | "3" => 3 | "4" => 4 | "5" => 5 | "6" => 6
  | "7" => 7 | "8" => 8 | "9" => 9 | "a" => 10 | "b" => 11 | "c" => 12
  | "d" => 13 | "e" => 14 | "f" => 15 | _ => 0
  end%char.

(** The diffusion round of [vortexEncrypt] in plain integer arithmetic:
    [((b ^ s) << 3) | (b >>> 5)] with [s] the element five places on. *)
Definition diffusion_mix (b s : Z) : Z := Z.lor (Z.shiftl (Z.lxor b s) 3) (Z.shiftr b 5).

Definition diffusion_round_Z (zs : list Z) : list Z :=
  imap (λ i b, diffusion_mix b (default 0 (zs !! ((i + 5) mod length zs)%nat))) zs.

(** ** The platform: Web Crypto and [TextEncoder]

    The primitives are external to the repository; they are an interface
    here.  [getRandomValues] threads the state of the random source. *)

Inductive algorithm := AES_GCM | HMAC.
Inductive usage := UseEncrypt | UseSign.
Inductive hash_name := SHA_256 | SHA_512.

Class WebPlatform : Type := {
  CryptoKey : Type;
  Entropy : Type;
  (** [new TextEncoder().encode(s)] *)
  TextEncoder_encode : string → list Z;
  (** [crypto.getRandomValues(new Uint8Array(n))] *)
  getRandomValues : nat → Entropy → list Z * Entropy;
  (** [crypto.subtle.importKey("raw", bytes, {name: "PBKDF2"}, false, ["deriveKey"])] *)
  importKey : list Z → CryptoKey;
  (** [crypto.subtle.encrypt({name: "AES-GCM", iv, tagLength: 128}, key, data)] *)
  encrypt : CryptoKey → list Z → list Z → list Z;
  (** [crypto.subtle.sign("HMAC", key, data)] *)
  sign : CryptoKey → list Z → list Z;
  (** [crypto.subtle.digest(name, data)] *)
  digest : hash_name → list Z → list Z;
}.

(** The standard contracts of the primitives that the layout relies on:
    what comes out is bytes, a random draw has the length asked for,
    HMAC-SHA-512 and SHA-512 give 64 bytes, AES-GCM appends its 16-byte
    tag to a ciphertext as long as the plaintext. *)
Class PlatformLaws (W : WebPlatform) : Prop := {
  random_length : ∀ n e, length (getRandomValues n e).1 = n;
  random_bytes : ∀ n e, Forall byte (getRandomValues n e).1;
  encrypt_length : ∀ k iv data, length (encrypt k iv data) = (length data + 16)%nat;
  sign_length : ∀ k data, length (sign k data) = 64%nat;
  sign_bytes : ∀ k data, Forall byte (sign k data);
  digest512_length : ∀ data, length (digest SHA_512 data) = 64%nat;
  digest512_bytes : ∀ data, Forall byte (digest SHA_512 data);
}.

(** The functions of the repository that [enhancedVortexEncrypt] and
    [processData] call and whose text is not in [src/Main.js]. *)
Class Helpers (W : WebPlatform) : Type := {
  Payload : Type;
  deriveCryptoKey : CryptoKey → list Z → algorithm → Z → usage → CryptoKey;
  exportKeyMaterial : CryptoKey → list Z;
  applyDynamicSubstitution : list Z → list Z → list Z;
  encodeSecurityPayload : list Z → list Z → list Z → list Z → Payload;
}.

(** ** [vortexEncrypt] (legacy)

    [expandedKey] and [salt] are bound to the promises returned by
    [digest(..).then(..)]; the function never awaits them. *)
Section Legacy.
Context {W : WebPlatform}.

(** [state.map((byte, idx) => (byte ^ state[(idx + 5) % state.length]) << 3 | byte >>> 5)] *)
Definition diffusion_round (state : list value) : list value :=
  let len := Num (Z.of_nat (length state)) in
  imap (λ idx byte,
          bitor (shl (bitxor byte (get state (rem (add (Num (Z.of_nat idx)) (Num 5)) len)))
                     (Num 3))
                (ushr byte (Num 5))) state.

(** The body of [masterKey.forEach((keyByte, i) => ...)]. *)
Definition permute_step (state : list value) (permuted : list Z) (ik : nat * Z) : list Z :=
  let i := Num (Z.of_nat ik.1) in
  let shift := rem (Num ik.2) (Num 32) in
  u8_set permuted (rem i (Num (Z.of_nat (length permuted))))
         (get state (rem (add i shift) (Num (Z.of_nat (length state))))).

Record legacy_stages : Type := LegacyStages {
  stage_state : list value;
  stage_permuted : list Z;
  stage_substituted : list Z;
  stage_salted : list Z;
  stage_hash : list Z;
}.

(** The body of [salted.forEach((block, idx) => ...)]. *)
Definition compress_step (expandedKey : object) (hash : list Z) (ib : nat * Z) : list Z :=
  let idx := Num (Z.of_nat ib.1) in
  let roundKey := index expandedKey (rem idx (length_of expandedKey)) in
  let slot := rem idx (Num (Z.of_nat (length hash))) in
  let hash1 :=
    u8_set hash slot (rem (add (add (u8_get hash slot) (Num ib.2)) roundKey) (Num 256)) in
  avalancheEffect hash1.

Definition vortexEncrypt_stages (data masterKey : list Z) : legacy_stages :=
  let expandedKey := Promise in
  let state := Nat.iter 3 diffusion_round (Num <$> data) in
  let permuted :=
    foldl (permute_step state) (replicate (length state) 0) (imap pair masterKey) in
  let sBox := createDynamicSBox expandedKey in
  let substituted := u8_map (λ b _, sbox_get sBox (rem (Num b) (Num 256))) permuted in
  let salt := Promise in
  let salted :=
    u8_map (λ b i, bitxor (Num b) (index salt (rem (Num (Z.of_nat i)) (length_of salt))))
           substituted in
  let hash := foldl (compress_step expandedKey) (replicate 64 0) (imap pair salted) in
  LegacyStages state permuted substituted salted hash.

Definition vortexEncrypt (input key : string) : string :=
  let data := TextEncoder_encode input in
  let masterKey := TextEncoder_encode key in
  bytesToHex (digest SHA_512 (stage_hash (vortexEncrypt_stages data masterKey))).
End Legacy.

(** ** [processData] and [enhancedVortexEncrypt] (v1.0.1) *)
Section Pipeline.
Context {W : WebPlatform} {H : Helpers W}.

Record processed : Type := Processed {
  encrypted : list Z;
  finalHash : list Z;
  hmac : list Z;
}.

Definition processData (data : list Z) (aesKey : CryptoKey) (iv : list Z)
    (hmacKey : CryptoKey) : processed :=
  (* Phase 1: AES-GCM authenticated encryption *)
  let encrypted := encrypt aesKey iv (applyAvalancheEffect data) in
  (* Phase 2: dynamic substitution layer *)
  let substituted := applyDynamicSubstitution encrypted (exportKeyMaterial aesKey) in
  (* Phase 3: final hash generation *)
  let finalHash := digest SHA_512 (applyAvalancheEffect substituted) in
  (* integrity verification code *)
  let hmac := sign hmacKey encrypted in
  Processed encrypted finalHash hmac.

(** What one call has in hand when it assembles the payload. *)
Record assembled : Type := Assembled {
  asm_salt : list Z;
  asm_iv : list Z;
  asm_aesKey : CryptoKey;
  asm_hmacKey : CryptoKey;
  asm_processed : processed;
}.

Definition enhancedVortexEncrypt_run (input key : string) (e : Entropy)
    : assembled * Entropy :=
  let '(salt, e1) := getRandomValues 16 e in
  let '(aesIV, e2) := getRandomValues 12 e1 in
  let baseKey := importKey (TextEncoder_encode key) in
  let aesKey := deriveCryptoKey baseKey salt AES_GCM 256 UseEncrypt in
  let hmacKey := deriveCryptoKey baseKey salt HMAC 512 UseSign in
  let processedData := processData (TextEncoder_encode input) aesKey aesIV hmacKey in
  (Assembled salt aesIV aesKey hmacKey processedData, e2).

Definition enhancedVortexEncrypt (input key : string) (e : Entropy) : Payload * Entropy :=
  let '(a, e') := enhancedVortexEncrypt_run input key e in
  (encodeSecurityPayload (asm_salt a) (asm_iv a)
     (hmac (asm_processed a)) (finalHash (asm_processed a)), e').
End Pipeline.


(** ** The payload codec and the verification path

    Neither [encodeSecurityPayload] nor a decoding or decrypting function
    is in [src/Main.js]. *)

(** Modelled from the spec: [encodeSecurityPayload], missing from
    [src/Main.js].  "Concatenation in the fixed order" of section 3,
    [salt(16) || iv(12) || integrityTag(64) || finalDigest(64)], of the
    four values the call in [enhancedVortexEncrypt] passes. *)
Definition encodeSecurityPayload_spec (salt iv tag dig : list Z) : list Z :=
  salt ++ iv ++ tag ++ dig.

(** Modelled from the spec: [applyDynamicSubstitution], missing from
    [src/Main.js].  "Builds a 256-entry byte permutation table ... then
    maps each ciphertext byte through the table" (section 4.5), the table
    being [createDynamicSBox] of the key material. *)
Definition applyDynamicSubstitution_spec (data keyMaterial : list Z) : list Z :=
  let sBox := createDynamicSBox (Bytes keyMaterial) in
  u8_map (λ b _, sbox_get sBox (Num b)) data.

(** The helpers [H] with the codec above in place of the missing
    [encodeSecurityPayload]; a payload is then a byte string. *)
Definition with_spec_codec {W : WebPlatform} (H : Helpers W) : Helpers W := {|
  Payload := list Z;
  deriveCryptoKey := @deriveCryptoKey W H;
  exportKeyMaterial := @exportKeyMaterial W H;
  applyDynamicSubstitution := @applyDynamicSubstitution W H;
  encodeSecurityPayload := encodeSecurityPayload_spec;
|}.

Module Verify.

Inductive error := FormatError | IntegrityFailure | TamperDetected | AuthenticationFailure.

(** The cryptographic work a call performs, in order. *)
Inductive crypto_op := OpDeriveKey | OpHmac | OpDigest | OpDecrypt.

(** A computation that may fail and records the cryptographic
    operations it performed. *)
Definition M (A : Type) : Type := list crypto_op → (error + A) * list crypto_op.

Definition ret {A} (a : A) : M A := λ t, (inr a, t).
Definition fail {A} (e : error) : M A := λ t, (inl e, t).
Definition bind {A B} (m : M A) (k : A → M B) : M B :=
  λ t, match m t with
       | (inl e, t') => (inl e, t')
       | (inr a, t') => k a t'
       end.
Definition perform {A} (op : crypto_op) (a : A) : M A := λ t, (inr a, t ++ [op]).
Definition check (b : bool) (e : error) : M unit := if b then ret () else fail e.
Definition run {A} (m : M A) : (error + A) * list crypto_op := m [].

Record fields : Type := Fields {
  f_salt : list Z;
  f_iv : list Z;
  f_tag : list Z;
  f_digest : list Z;
  f_ciphertext : list Z;
}.

(** Modelled from the spec: [decode], missing from [src/Main.js].
    "[FormatError] if total length is below the fixed-field minimum
    (16+12+64+64)"; the fields at the offsets of section 6. *)
Definition decode (bytes : list Z) : M fields :=
  if decide (length bytes < 16 + 12 + 64 + 64)%nat then fail FormatError
  else ret (Fields (take 16 bytes) (take 12 (drop 16 bytes)) (take 64 (drop 28 bytes))
                   (take 64 (drop 92 bytes)) (drop 156 bytes)).

Definition bytes_eqb (a b : list Z) : bool := bool_decide (a = b).

Section Unprotect.
Context {W : WebPlatform}.
Variable deriveCryptoKey : CryptoKey → list Z → algorithm → Z → usage → CryptoKey.
Variable exportKeyMaterial : CryptoKey → list Z.
Variable applyDynamicSubstitution : list Z → list Z → list Z.
Variable invertSubstitution : list Z → list Z → list Z.
Variable aeadDecrypt : CryptoKey → list Z → list Z → option (list Z).

(** Modelled from the spec: [unprotect], missing from [src/Main.js].
    Section 4.7: decode; re-derive both keys from the secret and the
    extracted salt; recompute the HMAC over the extracted ciphertext
    ([IntegrityFailure] on mismatch); recompute the final digest over
    the substituted ciphertext ([TamperDetected]); invert the
    substitution and decrypt ([AuthenticationFailure]). *)
Definition unprotect (secret : string) (payload : list Z) : M (list Z) :=
  bind (decode payload) (λ f,
  let baseKey := importKey (TextEncoder_encode secret) in
  bind (perform OpDeriveKey (deriveCryptoKey baseKey (f_salt f) AES_GCM 256 UseEncrypt))
    (λ cipherKey,
  bind (perform OpDeriveKey (deriveCryptoKey baseKey (f_salt f) HMAC 512 UseSign))
    (λ integrityKey,
  bind (perform OpHmac (sign integrityKey (f_ciphertext f))) (λ tag,
  bind (check (bytes_eqb tag (f_tag f)) IntegrityFailure) (λ _,
  let substituted :=
    applyDynamicSubstitution (f_ciphertext f) (exportKeyMaterial cipherKey) in
  bind (perform OpDigest (digest SHA_512 (applyAvalancheEffect substituted))) (λ dig,
  bind (check (bytes_eqb dig (f_digest f)) TamperDetected) (λ _,
  bind (perform OpDecrypt
          (aeadDecrypt cipherKey (f_iv f)
             (invertSubstitution substituted (exportKeyMaterial cipherKey)))) (λ r,
  match r with
  | Some plaintext => ret plaintext
  | None => fail AuthenticationFailure
  end)))))))).
End Unprotect.

End Verify.

(** ** The diffusion pass as section 4.3 of the spec words it

    "For 3 rounds, each byte is replaced by a function of itself and its
    two positional neighbors (circular indexing) ..., then a
    multiplicative/rotate step": [f b left right] is the round function
    and [g] the final bytewise step, both left open. *)
Definition neighbour_round (f : Z → Z → Z → Z) (state : list Z) : list Z :=
  let n := length state in
  imap (λ i b, f b (default 0 (state !! ((i + n - 1) mod n)%nat))
                   (default 0 (state !! ((i + 1) mod n)%nat))) state.

Definition diffusion_spec (f : Z → Z → Z → Z) (g : Z → Z) (buffer : list Z) : list Z :=
  g <$> Nat.iter 3 (neighbour_round f) buffer.

(** ** Finitely many byte strings of a given length *)

Fixpoint byte_lists (n : nat) : list (list Z) :=
  match n with
  | O => [[]]
  | S n => b ← seqZ 0 256; (cons b) <$> byte_lists n
  end.

(** The plaintext made of [n] letters a. *)
Fixpoint letters (n : nat) : string :=
  match n with
  | O => EmptyString
  | S n => String "a" (letters n)
  end.

(** ** A small platform on which the definitions run

    Keys are byte strings, the random source is a counter, the MAC and
    the digest fold their input into 64 bytes, and encryption masks with
    the key and appends a 16-byte tag. *)
Module Toy.

Definition fold64 (seed : Z) (data : list Z) : list Z :=
  replicate 64 (ToUint8 (Num (foldl Z.add seed data))).

Definition mask (key data : list Z) : list Z :=
  imap (λ i b, Z.lxor (b mod 256) (default 0 (key !! i) mod 256)) data.

Definition random (n : nat) (e : nat) : list Z * nat :=
  (replicate n (Z.of_nat e mod 256), S e).

#[local] Instance platform : WebPlatform := {|
  CryptoKey := list Z;
  Entropy := nat;
  TextEncoder_encode := λ s, Z.of_nat ∘ nat_of_ascii <$> list_ascii_of_string s;
  getRandomValues := random;
  importKey := id;
  encrypt := λ k iv data, mask k data ++ replicate 16 0;
  sign := λ k data, fold64 (foldl Z.add 0 k) data;
  digest := λ h data,
    match h with SHA_256 => take 32 (fold64 0 data) | SHA_512 => fold64 0 data end;
|}.

#[local] Instance helpers : Helpers platform := {|
  Payload := list Z;
  deriveCryptoKey := λ base salt alg bits use,
    take (Z.to_nat (bits / 8)) (mask salt (base ++ replicate 64 0));
  exportKeyMaterial := id;
  applyDynamicSubstitution := applyDynamicSubstitution_spec;
  encodeSecurityPayload := encodeSecurityPayload_spec;
|}.

End Toy.


(** * Properties *)

(** ** Bytes and conversions *)

Lemma wrap32_small z : - 2 ^ 31 ≤ z < 2 ^ 31 → wrap32 z = z.
Proof.
  intros Hz. unfold wrap32. destruct (decide (0 ≤ z)).
  - rewrite Z.mod_small by lia. by rewrite (proj2 (Z.ltb_lt _ _)) by lia.
  - replace (z mod 2 ^ 32) with (z + 2 ^ 32).
    + rewrite (proj2 (Z.ltb_ge _ _)) by lia. lia.
    + apply Z.mod_unique with (-1); lia.
Qed.

Lemma ToUint8_byte v : byte (ToUint8 v).
Proof.
  unfold byte. destruct v; simpl; [|lia..].
  pose proof (Z.mod_pos_bound z 256). lia.
Qed.

Lemma ToUint8_Num_byte b : byte b → ToUint8 (Num b) = b.
Proof. intros Hb. simpl. apply Z.mod_small. exact Hb. Qed.

Lemma u8_map_bytes f t : Forall byte (u8_map f t).
Proof.
  apply Forall_lookup. intros i x. unfold u8_map.
  rewrite list_lookup_imap. destruct (t !! i); intros [= <-]. apply ToUint8_byte.
Qed.

Lemma u8_map_length f t : length (u8_map f t) = length t.
Proof. apply length_imap. Qed.

Lemma u8_copy_bytes buffer : Forall byte buffer → u8_copy buffer = buffer.
Proof.
  intros Hb. unfold u8_copy. rewrite <-(list_fmap_id buffer) at 2.
  apply Forall_fmap_ext_1. eapply Forall_impl; [exact Hb|].
  intros b ?. by apply ToUint8_Num_byte.
Qed.

(** ** The substitution table *)

Lemma trial_division_prime p bound :
  0 ≤ bound → 1 < p → p < (2 + bound) * (2 + bound) →
  no_divisor_below p bound = true → prime p.
Proof.
  intros Hb Hp Hbound Hcheck. apply prime_alt. split; [done|].
  intros n Hn [q Hq].
  assert (∀ d, 2 ≤ d < 2 + bound → p mod d ≠ 0) as Hnodiv.
  { intros d Hd Hmod. unfold no_divisor_below in Hcheck.
    rewrite forallb_forall in Hcheck. specialize (Hcheck d).
    rewrite (proj2 (Z.eqb_eq _ _) Hmod) in Hcheck.
    enough (false = true) by done. apply Hcheck.
    apply list_elem_of_In, elem_of_seqZ. lia. }
  assert (1 < q) as Hq1 by nia.
  assert (∀ a b, 1 < a → a ≤ b → a * b < (2 + bound) * (2 + bound) → a < 2 + bound)
    as Hsmall.
  { intros a b Ha Hab Hlt. destruct (decide (a < 2 + bound)); [done|].
    assert ((2 + bound) * (2 + bound) ≤ a * a) by nia.
    assert (a * a ≤ a * b) by nia. lia. }
  destruct (decide (n ≤ q)).
  - apply (Hnodiv n).
    + split; [lia|]. apply (Hsmall n q); [lia|lia|]. rewrite Z.mul_comm. lia.
    + rewrite Hq. apply Z.mod_mul. lia.
  - apply (Hnodiv q).
    + split; [lia|]. apply (Hsmall q n); lia.
    + rewrite Hq, Z.mul_comm. apply Z.mod_mul. lia.
Qed.

(** The multiplier of the swap index is a prime number. *)
Lemma multiplier_prime : prime 179426549.
Proof. apply (trial_division_prime _ 13394); [lia|lia|lia|]. by vm_compute. Qed.

Section SBox.
Variable key : list Z.
Hypothesis key_nonempty : key ≠ [].
Hypothesis key_bytes : Forall byte key.

Lemma swapIdx_bytes i :
  0 ≤ i →
  ∃ k, key !! Z.to_nat (i mod Z.of_nat (length key)) = Some k
       ∧ swapIdx (Bytes key) i = Num ((k + i * 179426549) mod 256).
Proof using key_nonempty key_bytes.
  intros Hi. assert (0 < Z.of_nat (length key)) as Hlen.
  { destruct key; [done|]. simpl. lia. }
  pose proof (Z.mod_pos_bound i _ Hlen) as Hr.
  destruct (lookup_lt_is_Some_2 key (Z.to_nat (i mod Z.of_nat (length key)))) as [k Hk];
    [lia|].
  exists k. split; [done|].
  assert (byte k) as Hkb by (eapply Forall_lookup_1; eauto).
  unfold swapIdx, length_of, index. simpl.
  rewrite decide_False by lia. rewrite Z.rem_mod_nonneg by lia. simpl.
  rewrite decide_True by lia. rewrite Hk. simpl.
  unfold byte in Hkb. by rewrite Z.rem_mod_nonneg by lia.
Qed.

Lemma sbox_swap_permutation s i :
  length (cells s) = 256%nat → 0 ≤ i < 256 →
  cells (sbox_swap (Bytes key) s i) ≡ₚ cells s
  ∧ nan_prop (sbox_swap (Bytes key) s i) = nan_prop s.
Proof using key_nonempty key_bytes.
  intros Hlen Hi. unfold sbox_swap.
  destruct (swapIdx_bytes i) as (k & _ & ->); [lia|].
  set (j := (k + i * 179426549) mod 256).
  assert (0 ≤ j < 256) as Hj by (apply Z.mod_pos_bound; lia).
  destruct (lookup_lt_is_Some_2 (cells s) (Z.to_nat i)) as [x1 H1]; [lia|].
  destruct (lookup_lt_is_Some_2 (cells s) (Z.to_nat j)) as [x2 H2]; [lia|].
  simpl. rewrite !decide_True by lia. rewrite H1, H2. simpl.
  split; [|done].
  by apply Permutation_insert_swap.
Qed.

Lemma sbox_fold_permutation (l : list Z) s :
  length (cells s) = 256%nat → Forall (λ i, 0 ≤ i < 256) l →
  cells (foldl (sbox_swap (Bytes key)) s l) ≡ₚ cells s
  ∧ nan_prop (foldl (sbox_swap (Bytes key)) s l) = nan_prop s.
Proof using key_nonempty key_bytes.
  intros Hlen Hl. revert s Hlen.
  induction Hl as [|i l Hi _ IH]; intros s Hlen; [done|].
  destruct (sbox_swap_permutation s i Hlen Hi) as [Hp Hn]. simpl.
  destruct (IH (sbox_swap (Bytes key) s i)) as [Hp' Hn'].
  { by rewrite Hp. }
  split; [by rewrite Hp'|by rewrite Hn'].
Qed.

(** One iteration on a full table: cell [i] and the cell at the swap
    index exchange their contents, nothing else changes. *)
Lemma sbox_swap_exchanges s i :
  length (cells s) = 256%nat → 0 ≤ i < 256 →
  ∃ k xi xj,
    let j := Z.to_nat ((k + i * 179426549) mod 256) in
    key !! Z.to_nat (i mod Z.of_nat (length key)) = Some k
    ∧ cells s !! Z.to_nat i = Some xi
    ∧ cells s !! j = Some xj
    ∧ sbox_swap (Bytes key) s i
      = SBox (<[j := xi]> (<[Z.to_nat i := xj]> (cells s))) (nan_prop s).
Proof using key_nonempty key_bytes.
  intros Hlen Hi. unfold sbox_swap.
  destruct (swapIdx_bytes i) as (k & Hk & ->); [lia|].
  set (j := (k + i * 179426549) mod 256).
  assert (0 ≤ j < 256) as Hj by (apply Z.mod_pos_bound; lia).
  destruct (lookup_lt_is_Some_2 (cells s) (Z.to_nat i)) as [xi H1]; [lia|].
  destruct (lookup_lt_is_Some_2 (cells s) (Z.to_nat j)) as [xj H2]; [lia|].
  exists k, xi, xj. cbv zeta. fold j. split; [done|]. split; [done|]. split; [done|].
  simpl. rewrite !decide_True by lia. rewrite H1, H2. simpl. done.
Qed.

Lemma sbox_prefix_length n :
  (n ≤ 256)%nat →
  length (cells (sbox_prefix (Bytes key) n)) = 256%nat
  ∧ nan_prop (sbox_prefix (Bytes key) n) = Undefined.
Proof using key_nonempty key_bytes.
  intros Hn. unfold sbox_prefix.
  destruct (sbox_fold_permutation (seqZ 0 (Z.of_nat n)) sbox_init) as [Hp Hnan].
  - change (cells sbox_init) with (Num <$> seqZ 0 256).
    by rewrite length_fmap, length_seqZ.
  - apply Forall_forall. intros i Hi%elem_of_seqZ. lia.
  - split; [|done]. rewrite Hp. change (cells sbox_init) with (Num <$> seqZ 0 256).
    by rewrite length_fmap, length_seqZ.
Qed.

Lemma sbox_prefix_S n : 
  sbox_prefix (Bytes key) (S n)
  = sbox_swap (Bytes key) (sbox_prefix (Bytes key) n) (Z.of_nat n).
Proof. unfold sbox_prefix. by rewrite seqZ_S, foldl_app. Qed.

(** C9: for a non-empty key of bytes, [createDynamicSBox] returns 256
    cells that are a permutation of the byte values 0..255, every value
    in exactly one cell.  The table is constructed by swaps: it starts
    as the identity table, iteration [n] (for [n] from 0 to 255)
    exchanges the contents of cell [n] and of cell
    [(key[n % key.length] + n * 179426549) % 256] and touches nothing
    else, and the table returned is the one after the 256th iteration.
    The multiplier is prime. *)
Theorem createDynamicSBox_permutation :
  let sBox := createDynamicSBox (Bytes key) in
  cells sBox ≡ₚ Num <$> seqZ 0 256
  ∧ length (cells sBox) = 256%nat
  ∧ (∀ b, byte b → ∃ i, cells sBox !! i = Some (Num b)
                        ∧ ∀ j, cells sBox !! j = Some (Num b) → j = i)
  ∧ sBox = foldl (sbox_swap (Bytes key)) sbox_init (seqZ 0 256)
  ∧ (∀ i, 0 ≤ i < 256 →
       ∃ k, key !! Z.to_nat (i mod Z.of_nat (length key)) = Some k
            ∧ swapIdx (Bytes key) i = Num ((k + i * 179426549) mod 256))
  ∧ prime 179426549
  ∧ sbox_prefix (Bytes key) 0 = SBox (Num <$> seqZ 0 256) Undefined
  ∧ (∀ n, (n < 256)%nat →
       ∃ k xn xj,
         let before := sbox_prefix (Bytes key) n in
         let j := Z.to_nat ((k + Z.of_nat n * 179426549) mod 256) in
         key !! (n mod length key)%nat = Some k
         ∧ (j < 256)%nat
         ∧ cells before !! n = Some xn
         ∧ cells before !! j = Some xj
         ∧ sbox_prefix (Bytes key) (S n)
           = SBox (<[j := xn]> (<[n := xj]> (cells before))) Undefined
         ∧ cells (sbox_prefix (Bytes key) (S n)) !! n = Some xj
         ∧ cells (sbox_prefix (Bytes key) (S n)) !! j = Some xn
         ∧ ∀ c, c ≠ n → c ≠ j →
             cells (sbox_prefix (Bytes key) (S n)) !! c = cells before !! c)
  ∧ sBox = sbox_prefix (Bytes key) 256.
Proof using key_nonempty key_bytes.
  intros sBox.
  assert (cells sBox ≡ₚ Num <$> seqZ 0 256) as Hp.
  { apply (sbox_fold_permutation (seqZ 0 256) sbox_init).
    - change (cells sbox_init) with (Num <$> seqZ 0 256).
      by rewrite length_fmap, length_seqZ.
    - apply Forall_forall. intros i Hi%elem_of_seqZ. lia. }
  split; [done|]. split.
  { rewrite Hp. by rewrite length_fmap, length_seqZ. }
  split; [|split; [done|]].
  - intros b Hb.
    assert (Num b ∈ cells sBox) as [i Hi]%list_elem_of_lookup_1.
    { rewrite Hp. apply list_elem_of_fmap. exists b. split; [done|].
      apply elem_of_seqZ. unfold byte in Hb. lia. }
    exists i. split; [done|]. intros j Hj.
    eapply NoDup_lookup; [|exact Hj|exact Hi].
    rewrite Hp. apply (NoDup_fmap_2 _), NoDup_seqZ.
  - split; [intros i Hi; apply swapIdx_bytes; lia|].
    split; [apply multiplier_prime|]. split; [reflexivity|]. split.
    2:{ subst sBox. unfold createDynamicSBox, sbox_prefix.
        by change (Z.of_nat 256) with 256. }
    intros n Hn.
    destruct (sbox_prefix_length n) as [Hlen Hnan]; [lia|].
    destruct (sbox_swap_exchanges (sbox_prefix (Bytes key) n) (Z.of_nat n) Hlen)
      as (k & xn & xj & Hk & Hxn & Hxj & Hswap); [lia|].
    cbv zeta in Hk, Hxn, Hxj, Hswap. rewrite Nat2Z.id in Hxn, Hswap.
    rewrite <-Nat2Z.inj_mod, Nat2Z.id in Hk. rewrite Hnan in Hswap.
    exists k, xn, xj. cbv zeta.
    set (j := Z.to_nat ((k + Z.of_nat n * 179426549) mod 256)) in *.
    assert (j < 256)%nat as Hj.
    { pose proof (Z.mod_pos_bound (k + Z.of_nat n * 179426549) 256). lia. }
    rewrite sbox_prefix_S, Hswap. cbn [cells].
    split; [done|]. split; [done|]. split; [done|]. split; [done|]. split; [done|].
    split; [|split].
    + destruct (decide (j = n)) as [Heq|Hne].
      * rewrite Heq, list_lookup_insert_eq by (rewrite length_insert; lia).
        rewrite Heq in Hxj. congruence.
      * rewrite list_lookup_insert_ne by done.
        by rewrite list_lookup_insert_eq by lia.
    + by rewrite list_lookup_insert_eq by (rewrite length_insert; lia).
    + intros c Hcn Hcj. by rewrite !list_lookup_insert_ne by done.
Qed.
End SBox.

Lemma createDynamicSBox_witness :
  [27; 4; 200] ≠ [] ∧ Forall byte [27; 4; 200] ∧
  cells (createDynamicSBox (Bytes [27; 4; 200])) ≡ₚ Num <$> seqZ 0 256.
Proof.
  assert ([27; 4; 200] ≠ []) as H1 by done.
  assert (Forall byte [27; 4; 200]) as H2 by (repeat constructor; unfold byte; lia).
  split; [exact H1|]. split; [exact H2|].
  exact (proj1 (createDynamicSBox_permutation [27; 4; 200] H1 H2)).
Defined.

(** ** The legacy salt step *)

Lemma bitxor_undefined b : byte b → bitxor (Num b) Undefined = Num b.
Proof.
  intros Hb. unfold bitxor, byte in *. simpl.
  rewrite (wrap32_small b) by lia. rewrite Z.lxor_0_r. by rewrite wrap32_small by lia.
Qed.

Lemma u8_map_id f t :
  (∀ i b, t !! i = Some b → ToUint8 (f b i) = b) → u8_map f t = t.
Proof.
  intros Hf. apply list_eq. intros i. unfold u8_map. rewrite list_lookup_imap.
  destruct (t !! i) as [b|] eqn:Hb; [|done]. simpl. by rewrite (Hf i b).
Qed.

(** C10: in [vortexEncrypt] the salt is a promise, so [salt.length] and
    every [salt[i % salt.length]] are [undefined], [b ^ undefined] is [b],
    and the salted array equals the substituted one for every input and
    key. *)
Theorem vortexEncrypt_salt_identity (data masterKey : list Z) :
  let st := vortexEncrypt_stages data masterKey in
  length_of Promise = Undefined
  ∧ (∀ i : nat, index Promise (rem (Num (Z.of_nat i)) (length_of Promise)) = Undefined)
  ∧ (∀ i b, stage_substituted st !! i = Some b → bitxor (Num b) Undefined = Num b)
  ∧ stage_salted st = stage_substituted st.
Proof.
  intros st. split; [done|]. split; [done|].
  assert (Forall byte (stage_substituted st)) as Hbytes by apply u8_map_bytes.
  split.
  - intros i b Hb. apply bitxor_undefined. by eapply Forall_lookup_1.
  - subst st. unfold vortexEncrypt_stages. cbv zeta. cbn [stage_salted stage_substituted].
    apply u8_map_id. intros i b Hb. cbn [index length_of rem].
    assert (byte b) as Hbyte.
    { eapply Forall_lookup_1; [|exact Hb]. apply u8_map_bytes. }
    rewrite bitxor_undefined by done. by apply ToUint8_Num_byte.
Qed.

(** The compression loop adds [roundKey], read from the promise
    [expandedKey] and so [undefined], to every block: the sum is NaN, the
    byte stored is 0, and the 64-byte state never leaves zero.  The
    string [vortexEncrypt] returns is the same for every input and key. *)
Lemma compress_step_zero (ib : nat * Z) :
  compress_step Promise (replicate 64 0) ib = replicate 64 0.
Proof.
  unfold compress_step. cbn [index].
  generalize (rem (Num (Z.of_nat ib.1)) (Num (Z.of_nat (length (replicate 64 0))))).
  intros slot.
  assert (add (add (u8_get (replicate 64 0) slot) (Num ib.2)) Undefined = NaN) as ->.
  { by destruct (add (u8_get (replicate 64 0) slot) (Num ib.2)). }
  cbn [rem].
  assert (u8_set (replicate 64 0) slot NaN = replicate 64 0) as ->; [|by vm_compute].
  unfold u8_set. destruct slot as [n| |]; [|done..].
  destruct (decide (0 ≤ n)); [|done]. cbn [ToUint8].
  destruct (decide (Z.to_nat n < 64)%nat).
  - apply list_insert_id. by apply lookup_replicate_2.
  - apply list_insert_ge. rewrite length_replicate. lia.
Qed.

(** X4: [vortexEncrypt] returns one and the same string, the hex form of
    the SHA-512 digest of 64 zero bytes, for every input and every key:
    the round key read from the promise is [undefined], so nothing of
    the input or the key reaches the state that is hashed. *)
Lemma vortexEncrypt_constant {W : WebPlatform} (input key : string) :
  vortexEncrypt input key = bytesToHex (digest SHA_512 (replicate 64 0)).
Proof.
  unfold vortexEncrypt, vortexEncrypt_stages. cbv zeta. cbn [stage_hash].
  do 2 f_equal.
  match goal with |- foldl _ _ ?l = _ => generalize l end.
  intros l. induction l as [|ib l IH]; [done|].
  cbn [foldl]. by rewrite compress_step_zero.
Qed.

(** ** The diffusion passes *)

Lemma log2_byte a : byte a → Z.log2 a < 8.
Proof.
  intros [H0 H1]. destruct (decide (a = 0)) as [->|]; [done|].
  apply Z.log2_lt_pow2; lia.
Qed.

Lemma lxor_byte a b : byte a → byte b → byte (Z.lxor a b).
Proof.
  intros Ha Hb. pose proof (log2_byte a Ha). pose proof (log2_byte b Hb).
  destruct Ha as [Ha0 Ha1], Hb as [Hb0 Hb1].
  assert (0 ≤ Z.lxor a b) as Hnn by (apply Z.lxor_nonneg; lia).
  split; [done|]. destruct (decide (Z.lxor a b = 0)) as [->|]; [done|].
  apply (Z.log2_lt_pow2 _ 8); [lia|].
  pose proof (Z.log2_lxor a b Ha0 Hb0). lia.
Qed.

Lemma land_byte a b : byte a → byte b → byte (Z.land a b).
Proof.
  intros Ha Hb. pose proof (log2_byte a Ha).
  destruct Ha as [Ha0 Ha1], Hb as [Hb0 Hb1].
  assert (0 ≤ Z.land a b) as Hnn by (apply Z.land_nonneg; lia).
  split; [done|]. destruct (decide (Z.land a b = 0)) as [->|]; [done|].
  apply (Z.log2_lt_pow2 _ 8); [lia|].
  pose proof (Z.log2_land a b Ha0 Hb0). lia.
Qed.

Lemma bitxor_bytes a b : byte a → byte b → bitxor (Num a) (Num b) = Num (Z.lxor a b).
Proof.
  intros Ha Hb. pose proof (lxor_byte a b Ha Hb) as Hx. unfold bitxor, byte in *. simpl.
  rewrite (wrap32_small a), (wrap32_small b) by lia. by rewrite wrap32_small by lia.
Qed.

Lemma bitand_bytes a b : byte a → byte b → bitand (Num a) (Num b) = Num (Z.land a b).
Proof.
  intros Ha Hb. pose proof (land_byte a b Ha Hb) as Hx. unfold bitand, byte in *. simpl.
  rewrite (wrap32_small a), (wrap32_small b) by lia. by rewrite wrap32_small by lia.
Qed.

Lemma avalanche_mix_byte b s : byte (avalanche_mix b s).
Proof. unfold avalanche_mix, byte. apply Z.mod_pos_bound. lia. Qed.

Lemma u8_get_nat t (i : nat) b : t !! i = Some b → u8_get t (Num (Z.of_nat i)) = Num b.
Proof. intros Hb. unfold u8_get. rewrite decide_True by lia. by rewrite Nat2Z.id, Hb. Qed.

Lemma rem_nat (a n : nat) :
  n ≠ 0%nat → rem (Num (Z.of_nat a)) (Num (Z.of_nat n)) = Num (Z.of_nat (a mod n)).
Proof.
  intros Hn. unfold rem. rewrite decide_False by lia.
  rewrite Z.rem_mod_nonneg by lia. by rewrite Nat2Z.inj_mod.
Qed.

Lemma u8_set_nat t (i : nat) v : u8_set t (Num (Z.of_nat i)) v = <[i := ToUint8 v]> t.
Proof. unfold u8_set. rewrite decide_True by lia. by rewrite Nat2Z.id. Qed.

(** One run of the callback, on bytes. *)
Lemma avalanche_step_insert state i b s :
  Forall byte state →
  state !! i = Some b → state !! ((i + 7) mod length state)%nat = Some s →
  avalanche_step state i = <[i := avalanche_mix b s]> state.
Proof.
  intros Hbytes Hb Hs.
  assert (i < length state)%nat as Hi by (by eapply lookup_lt_Some).
  assert (byte b) by (by eapply Forall_lookup_1).
  assert (byte s) by (by eapply Forall_lookup_1).
  unfold avalanche_step. rewrite (u8_get_nat _ _ _ Hb).
  change (add (Num (Z.of_nat i)) (Num 7)) with (Num (Z.of_nat i + 7)).
  replace (Z.of_nat i + 7) with (Z.of_nat (i + 7)) by lia.
  rewrite rem_nat by lia. rewrite (u8_get_nat _ _ _ Hs).
  rewrite bitxor_bytes by done. rewrite !u8_set_nat.
  rewrite ToUint8_Num_byte by (by apply lxor_byte).
  rewrite (u8_get_nat _ i (Z.lxor b s)) by (by apply list_lookup_insert_eq).
  rewrite list_insert_insert_eq. f_equal.
  pose proof (lxor_byte b s H H0) as Hx. unfold byte in Hx.
  cbn [mul rem]. rewrite decide_False by done.
  rewrite Z.rem_mod_nonneg by lia. cbn [ToUint8].
  unfold avalanche_mix. apply Z.mod_small. apply Z.mod_pos_bound. lia.
Qed.

(** The state after the callback has run on the indices below [k]. *)
Lemma avalanche_prefix state k :
  Forall byte state → (k ≤ length state)%nat →
  let st := foldl avalanche_step state (seq 0 k) in
  length st = length state
  ∧ Forall byte st
  ∧ (∀ i, (k ≤ i)%nat → st !! i = state !! i)
  ∧ (∀ i b s, (i < k)%nat → state !! i = Some b →
       avalanche_partner state st i = Some s → st !! i = Some (avalanche_mix b s)).
Proof.
  intros Hbytes. induction k as [|k IH]; intros Hk st.
  { subst st. simpl. split; [done|]. split; [done|]. split; [done|]. intros; lia. }
  destruct IH as (Hlen & Hst & Hhigh & Hlow); [lia|].
  subst st. rewrite seq_S, foldl_app. simpl.
  set (st := foldl avalanche_step state (seq 0 k)) in *.
  destruct (lookup_lt_is_Some_2 state k) as [b Hb]; [lia|].
  destruct (lookup_lt_is_Some_2 st ((k + 7) mod length st)%nat) as [s Hs].
  { apply Nat.mod_upper_bound. lia. }
  assert (st !! k = Some b) as Hb' by (by rewrite Hhigh).
  rewrite (avalanche_step_insert st k b s) by done.
  split; [by rewrite length_insert|]. split.
  { apply Forall_insert; [done|apply avalanche_mix_byte]. }
  split.
  { intros i Hi. rewrite list_lookup_insert_ne by lia. apply Hhigh. lia. }
  intros i b' s' Hi Hb'' Hp.
  destruct (decide (i = k)) as [->|Hne].
  - rewrite list_lookup_insert_eq by lia.
    assert (b' = b) as -> by congruence.
    assert (s' = s) as ->; [|done].
    unfold avalanche_partner in Hp. rewrite <-Hlen in Hp.
    destruct (decide ((k + 7) mod length st < k)%nat).
    + rewrite list_lookup_insert_ne in Hp by lia. congruence.
    + rewrite <-Hhigh in Hp by lia. congruence.
  - rewrite list_lookup_insert_ne by lia. apply Hlow; [lia|done|].
    unfold avalanche_partner in *.
    destruct (decide ((i + 7) mod length state < i)%nat); [|done].
    by rewrite list_lookup_insert_ne in Hp by lia.
Qed.

Lemma avalanche_round_spec state :
  Forall byte state →
  length (avalanche_round state) = length state
  ∧ Forall byte (avalanche_round state)
  ∧ ∀ i b s, state !! i = Some b →
      avalanche_partner state (avalanche_round state) i = Some s →
      avalanche_round state !! i = Some (avalanche_mix b s).
Proof.
  intros Hbytes.
  destruct (avalanche_prefix state (length state) Hbytes (Nat.le_refl _))
    as (Hlen & Hst & _ & Hlow).
  split; [done|]. split; [done|]. intros i b s Hb Hp.
  apply Hlow; [by eapply lookup_lt_Some|done|done].
Qed.

Lemma avalancheEffect_lookup state i b prev next :
  Forall byte state →
  state !! i = Some b →
  state !! ((i + length state - 1) mod length state)%nat = Some prev →
  state !! ((i + 1) mod length state)%nat = Some next →
  avalancheEffect state !! i = Some (neighbour_mix b prev next).
Proof.
  intros Hbytes Hb Hp Hn.
  assert (i < length state)%nat as Hi by (by eapply lookup_lt_Some).
  assert (byte b) by (by eapply Forall_lookup_1).
  assert (byte prev) by (by eapply Forall_lookup_1).
  assert (byte next) by (by eapply Forall_lookup_1).
  unfold avalancheEffect, u8_map. rewrite list_lookup_imap, Hb.
  cbn [fmap option_fmap option_map]. f_equal.
  change (add (add (Num (Z.of_nat i)) (Num (-1))) (Num (Z.of_nat (length state))))
    with (Num (Z.of_nat i + -1 + Z.of_nat (length state))).
  replace (Z.of_nat i + -1 + Z.of_nat (length state))
    with (Z.of_nat (i + length state - 1)) by lia.
  change (add (Num (Z.of_nat i)) (Num 1)) with (Num (Z.of_nat i + 1)).
  replace (Z.of_nat i + 1) with (Z.of_nat (i + 1)) by lia.
  rewrite !rem_nat by lia.
  rewrite (u8_get_nat _ _ _ Hp), (u8_get_nat _ _ _ Hn).
  rewrite (bitxor_bytes b prev) by done.
  rewrite bitxor_bytes by (done || by apply lxor_byte).
  rewrite bitand_bytes by done. done.
Qed.

Lemma u8_copy_is_bytes buffer : Forall byte (u8_copy buffer).
Proof. apply Forall_fmap, Forall_forall. intros b _. apply ToUint8_byte. Qed.

Lemma applyAvalancheEffect_length buffer :
  length (applyAvalancheEffect buffer) = length buffer.
Proof.
  pose proof (u8_copy_is_bytes buffer) as H0.
  destruct (avalanche_round_spec _ H0) as (L1 & H1 & _).
  destruct (avalanche_round_spec _ H1) as (L2 & H2 & _).
  destruct (avalanche_round_spec _ H2) as (L3 & _ & _).
  unfold applyAvalancheEffect. cbn [Nat.iter nat_rect].
  rewrite L3, L2, L1. apply length_fmap.
Qed.

(** C6, as the code has it: [applyAvalancheEffect] runs exactly three
    rounds over a byte copy of its input and involves nothing but that
    input.  In a round the callback visits the indices in order and
    leaves [((b ^ s) * 31) % 256] at index [i], where [b] is the byte at
    [i] and [s] the byte at [(i + 7) % length] at that moment, not a
    neighbour of [i].  The neighbour formula
    [((b ^ prev ^ next) + (prev & next)) % 256] is the single pass of the
    legacy [avalancheEffect]. *)
Theorem applyAvalancheEffect_rounds (buffer : list Z) :
  let r0 := u8_copy buffer in
  let r1 := avalanche_round r0 in
  let r2 := avalanche_round r1 in
  let r3 := avalanche_round r2 in
  applyAvalancheEffect buffer = r3
  ∧ length r3 = length buffer
  ∧ Forall byte r3
  ∧ (∀ state, state ∈ [r0; r1; r2] → ∀ i b s,
       state !! i = Some b →
       avalanche_partner state (avalanche_round state) i = Some s →
       avalanche_round state !! i = Some (avalanche_mix b s))
  ∧ (∀ state i b prev next,
       Forall byte state →
       state !! i = Some b →
       state !! ((i + length state - 1) mod length state)%nat = Some prev →
       state !! ((i + 1) mod length state)%nat = Some next →
       avalancheEffect state !! i = Some (neighbour_mix b prev next)).
Proof.
  intros r0 r1 r2 r3.
  pose proof (u8_copy_is_bytes buffer) as H0. fold r0 in H0.
  destruct (avalanche_round_spec r0 H0) as (L1 & H1 & S1).
  destruct (avalanche_round_spec r1 H1) as (L2 & H2 & S2).
  destruct (avalanche_round_spec r2 H2) as (L3 & H3 & S3).
  split; [done|]. split.
  { subst r3 r2 r1. rewrite L3, L2, L1. subst r0. unfold u8_copy. apply length_fmap. }
  split; [done|]. split.
  - intros state Hstate i b s.
    apply elem_of_cons in Hstate as [->|Hstate]; [apply S1|].
    apply elem_of_cons in Hstate as [->|Hstate]; [apply S2|].
    apply list_elem_of_singleton in Hstate as ->. apply S3.
  - intros state i b prev next. apply avalancheEffect_lookup.
Qed.

(** C6, as the spec words it, fails: whatever the round function of a
    byte and its two neighbours and whatever the final bytewise step,
    three such rounds are not [applyAvalancheEffect].  On 16 zero bytes
    the output is zero at index 0; setting byte 7 (outside the reach of
    three neighbour rounds from index 0) to 1 turns it into 95. *)
Lemma applyAvalancheEffect_not_neighbour_rounds :
  ¬ ∃ (f : Z → Z → Z → Z) (g : Z → Z),
      ∀ buffer, applyAvalancheEffect buffer = diffusion_spec f g buffer.
Proof.
  intros (f & g & Heq).
  pose proof (f_equal (λ l, l !! 0%nat) (Heq (replicate 16 0))) as H1.
  pose proof (f_equal (λ l, l !! 0%nat) (Heq (<[7%nat := 1]> (replicate 16 0)))) as H2.
  vm_compute in H1, H2. congruence.
Qed.

(** ** The pipeline *)

Section PipelineFacts.
Context {W : WebPlatform}.

(** C3: the integrity tag handed to the payload encoder is the HMAC,
    under the integrity key derived from the secret and the salt, of
    the AES-GCM output itself, the value [processData] computes before
    the substitution layer; no choice of the substitution layer or of
    the exported key material changes it. *)
Theorem integrity_tag_over_ciphertext (H : Helpers W) (input key : string) (e : Entropy) :
  let a := (enhancedVortexEncrypt_run input key e).1 in
  let pd := asm_processed a in
  let ciphertext :=
    encrypt (asm_aesKey a) (asm_iv a) (applyAvalancheEffect (TextEncoder_encode input)) in
  encrypted pd = ciphertext
  ∧ hmac pd = sign (asm_hmacKey a) ciphertext
  ∧ asm_hmacKey a =
      deriveCryptoKey (importKey (TextEncoder_encode key)) (asm_salt a) HMAC 512 UseSign
  ∧ (enhancedVortexEncrypt input key e).1 =
      encodeSecurityPayload (asm_salt a) (asm_iv a)
        (sign (asm_hmacKey a) ciphertext) (finalHash pd)
  ∧ ∀ (H' : Helpers W) data aesKey iv hmacKey,
      hmac (@processData W H' data aesKey iv hmacKey) =
      sign hmacKey (encrypt aesKey iv (applyAvalancheEffect data)).
Proof.
  intros a pd ciphertext. subst ciphertext pd a.
  unfold enhancedVortexEncrypt, enhancedVortexEncrypt_run.
  destruct (getRandomValues 16 e) as [salt e1].
  destruct (getRandomValues 12 e1) as [aesIV e2].
  repeat split.
Qed.


(** One call draws 16 bytes for the salt, then 12 for the IV, from the
    random source, and derives both keys from that salt. *)
Lemma enhancedVortexEncrypt_draws (H : Helpers W) (input key : string) (e : Entropy) :
  let a := (enhancedVortexEncrypt_run input key e).1 in
  let baseKey := importKey (TextEncoder_encode key) in
  asm_salt a = (getRandomValues 16 e).1
  ∧ asm_iv a = (getRandomValues 12 (getRandomValues 16 e).2).1
  ∧ (enhancedVortexEncrypt_run input key e).2 = (getRandomValues 12 (getRandomValues 16 e).2).2
  ∧ asm_aesKey a = deriveCryptoKey baseKey (asm_salt a) AES_GCM 256 UseEncrypt
  ∧ asm_hmacKey a = deriveCryptoKey baseKey (asm_salt a) HMAC 512 UseSign
  ∧ asm_processed a =
      processData (TextEncoder_encode input) (asm_aesKey a) (asm_iv a) (asm_hmacKey a).
Proof.
  intros a baseKey. subst a baseKey. unfold enhancedVortexEncrypt_run.
  destruct (getRandomValues 16 e) as [salt e1]. simpl.
  destruct (getRandomValues 12 e1) as [aesIV e2]. simpl.
  repeat split.
Qed.

Lemma with_spec_codec_run (H : Helpers W) input key e :
  @enhancedVortexEncrypt_run W (with_spec_codec H) input key e =
  @enhancedVortexEncrypt_run W H input key e.
Proof. reflexivity. Qed.

Lemma with_spec_codec_payload (H : Helpers W) input key e :
  let a := (@enhancedVortexEncrypt_run W H input key e).1 in
  (@enhancedVortexEncrypt W (with_spec_codec H) input key e).1 =
  asm_salt a ++ asm_iv a ++ hmac (asm_processed a) ++ finalHash (asm_processed a).
Proof.
  intros a. subst a. unfold enhancedVortexEncrypt. rewrite with_spec_codec_run.
  by destruct (enhancedVortexEncrypt_run input key e) as [a e'].
Qed.

Context {L : PlatformLaws W}.

Lemma run_lengths (H : Helpers W) input key e :
  let a := (@enhancedVortexEncrypt_run W H input key e).1 in
  length (asm_salt a) = 16%nat ∧ length (asm_iv a) = 12%nat
  ∧ length (hmac (asm_processed a)) = 64%nat
  ∧ length (finalHash (asm_processed a)) = 64%nat
  ∧ length (encrypted (asm_processed a)) = (length (TextEncoder_encode input) + 16)%nat.
Proof using L.
  intros a. destruct (enhancedVortexEncrypt_draws H input key e)
    as (Hs & Hi & _ & _ & _ & Hp).
  fold a in Hs, Hi, Hp. rewrite Hs, Hi, Hp. unfold processData. cbn [hmac finalHash encrypted].
  rewrite !random_length, sign_length, digest512_length, encrypt_length.
  repeat split. f_equal. apply applyAvalancheEffect_length.
Qed.

(** C5: the integrity tag is the whole HMAC-SHA-512 output, 64 bytes,
    as [processData] returns it and as it sits at offset 28 of the
    payload; nothing cuts it to 32 bytes. *)
Theorem integrity_tag_is_64_bytes (H : Helpers W) (input key : string) (e : Entropy) :
  let a := (enhancedVortexEncrypt_run input key e).1 in
  let pd := asm_processed a in
  let payload := (@enhancedVortexEncrypt W (with_spec_codec H) input key e).1 in
  hmac pd = sign (asm_hmacKey a) (encrypted pd)
  ∧ length (hmac pd) = 64%nat
  ∧ take 64 (drop 28 payload) = hmac pd
  ∧ (∀ data aesKey iv hmacKey,
       length (hmac (processData data aesKey iv hmacKey)) = 64%nat).
Proof using L.
  intros a pd payload.
  destruct (run_lengths H input key e) as (Ls & Li & Lh & Ld & _). fold a in Ls, Li, Lh, Ld.
  destruct (enhancedVortexEncrypt_draws H input key e) as (_ & _ & _ & _ & _ & Hp).
  fold a pd in Hp. split; [by rewrite Hp|]. split; [done|]. split.
  - subst payload. rewrite with_spec_codec_payload. fold a pd.
    rewrite app_assoc, drop_app_length' by (rewrite length_app; lia).
    by rewrite take_app_length' by done.
  - intros. apply sign_length.
Qed.

(** C2, as the code has it: the payload is the four fixed fields and
    nothing else, [salt(16) || iv(12) || tag(64) || digest(64)], 156
    bytes for every input; the ciphertext, 16 bytes longer than the
    plaintext, stays in [processData]'s result and is not passed to
    the encoder. *)
Theorem payload_is_fixed_fields (H : Helpers W) (input key : string) (e : Entropy) :
  let a := (enhancedVortexEncrypt_run input key e).1 in
  let pd := asm_processed a in
  let payload := (@enhancedVortexEncrypt W (with_spec_codec H) input key e).1 in
  payload = asm_salt a ++ asm_iv a ++ hmac pd ++ finalHash pd
  ∧ length (asm_salt a) = 16%nat ∧ length (asm_iv a) = 12%nat
  ∧ length (hmac pd) = 64%nat ∧ length (finalHash pd) = 64%nat
  ∧ length payload = (16 + 12 + 64 + 64)%nat
  ∧ drop 156 payload = []
  ∧ length (encrypted pd) = (length (TextEncoder_encode input) + 16)%nat.
Proof using L.
  intros a pd payload.
  destruct (run_lengths H input key e) as (Ls & Li & Lh & Ld & Le).
  fold a in Ls, Li, Lh, Ld, Le. fold pd in Lh, Ld, Le.
  assert (payload = asm_salt a ++ asm_iv a ++ hmac pd ++ finalHash pd) as Hp
    by apply with_spec_codec_payload.
  assert (length payload = 156%nat) as Hlen by (rewrite Hp, !length_app; lia).
  repeat split; try done. by apply drop_ge; lia.
Qed.
End PipelineFacts.

(** ** The payload does not carry the plaintext *)

Lemma byte_lists_complete n (l : list Z) :
  length l = n → Forall byte l → l ∈ byte_lists n.
Proof.
  revert l. induction n as [|n IH]; intros [|b l] Hlen Hl; try discriminate.
  { by apply list_elem_of_singleton. }
  injection Hlen as Hlen. apply Forall_cons in Hl as [Hb Hl].
  change (byte_lists (S n)) with (seqZ 0 256 ≫= λ b, cons b <$> byte_lists n).
  apply list_elem_of_bind. exists b. split.
  - apply list_elem_of_fmap. exists l. split; [done|]. by apply IH.
  - apply elem_of_seqZ. unfold byte in Hb. lia.
Qed.

Lemma letters_length n : String.length (letters n) = n.
Proof. induction n; simpl; congruence. Qed.

Lemma letters_inj n m : letters n = letters m → n = m.
Proof. intros Heq. by rewrite <-(letters_length n), <-(letters_length m), Heq. Qed.

Section Collision.
Context {W : WebPlatform} {L : PlatformLaws W} (H : Helpers W).
Variables (key : string) (e : Entropy).

(** The tag and the digest of the plaintext [input], side by side. *)
Let tag_digest (input : string) : list Z :=
  let pd := asm_processed (enhancedVortexEncrypt_run input key e).1 in
  hmac pd ++ finalHash pd.

Lemma payload_factors input :
  let pd := asm_processed (enhancedVortexEncrypt_run input key e).1 in
  (enhancedVortexEncrypt input key e).1 =
  encodeSecurityPayload (getRandomValues 16 e).1
    (getRandomValues 12 (getRandomValues 16 e).2).1 (hmac pd) (finalHash pd).
Proof.
  unfold enhancedVortexEncrypt, enhancedVortexEncrypt_run.
  destruct (getRandomValues 16 e) as [salt e1]. simpl.
  by destruct (getRandomValues 12 e1) as [aesIV e2].
Qed.

Lemma tag_digest_in_range input : tag_digest input ∈ byte_lists 128.
Proof using L.
  destruct (run_lengths H input key e) as (_ & _ & Lh & Ld & _).
  destruct (enhancedVortexEncrypt_draws H input key e) as (_ & _ & _ & _ & _ & Hp).
  apply byte_lists_complete.
  - unfold tag_digest. rewrite length_app, Lh, Ld. done.
  - unfold tag_digest. rewrite Hp. apply Forall_app. split.
    + apply sign_bytes.
    + apply digest512_bytes.
Qed.

Lemma payload_collision :
  ∃ n1 n2 : nat, (n1 < n2)%nat ∧
    (enhancedVortexEncrypt (letters n1) key e).1 =
    (enhancedVortexEncrypt (letters n2) key e).1.
Proof using L.
  set (all := byte_lists 128).
  destruct (list_pigeonhole ((tag_digest ∘ letters) <$> seq 0 (S (length all))) all)
    as (i1 & i2 & x & Hlt & H1 & H2).
  { intros x (n & -> & _)%list_elem_of_fmap. apply tag_digest_in_range. }
  { rewrite length_fmap, length_seq. lia. }
  apply list_lookup_fmap_Some_1 in H1 as (n1 & -> & Hn1).
  apply list_lookup_fmap_Some_1 in H2 as (n2 & Heq & Hn2).
  apply lookup_seq in Hn1 as [-> _]. apply lookup_seq in Hn2 as [-> _].
  exists (0 + i1)%nat, (0 + i2)%nat. split; [lia|].
  rewrite !payload_factors. unfold compose, tag_digest in Heq.
  destruct (run_lengths H (letters (0 + i1)) key e) as (_ & _ & Lh1 & _).
  destruct (run_lengths H (letters (0 + i2)) key e) as (_ & _ & Lh2 & _).
  apply app_inj_1 in Heq as [-> ->]; [done|congruence].
Qed.

(** C1, as the code has it: the payload of [enhancedVortexEncrypt] is
    made from the salt, the IV, the tag and the digest alone, so for
    every secret and every state of the random source two different
    plaintexts have the same payload, and whatever an [unprotect]
    operation computes from the secret and the payload, it fails to
    return the plaintext for one of them. *)
Theorem payload_does_not_determine_plaintext :
  (∃ P1 P2, P1 ≠ P2 ∧
     (enhancedVortexEncrypt P1 key e).1 = (enhancedVortexEncrypt P2 key e).1)
  ∧ ∀ unprotect : string → Payload → Verify.error + string,
      ∃ P, unprotect key (enhancedVortexEncrypt P key e).1 ≠ inr P.
Proof using L.
  destruct payload_collision as (n1 & n2 & Hlt & Heq).
  assert (letters n1 ≠ letters n2) as Hne by (intros ?%letters_inj; lia).
  split; [by exists (letters n1), (letters n2)|].
  intros unprotect.
  destruct (unprotect key (enhancedVortexEncrypt (letters n1) key e).1) as [err|p] eqn:Hu.
  - exists (letters n1). by rewrite Hu.
  - destruct (string_dec p (letters n1)) as [->|Hp].
    + exists (letters n2). rewrite <-Heq, Hu. congruence.
    + exists (letters n1). rewrite Hu. congruence.
Qed.
End Collision.

(** C1, as the spec words it, fails: on no platform that meets the
    primitives' contracts, with no choice of the missing helpers and in
    no state of the random source is there an [unprotect] that returns
    [P] from [protect(S, P)] for all [S] and [P]. *)
Lemma round_trip_fails :
  ¬ ∃ (W : WebPlatform) (L : PlatformLaws W) (H : Helpers W) (e : Entropy)
      (unprotect : string → Payload → Verify.error + string),
      ∀ S P, unprotect S (enhancedVortexEncrypt P S e).1 = inr P.
Proof.
  intros (W & L & H & e & unprotect & Hround).
  destruct (payload_collision H EmptyString e) as (n1 & n2 & Hlt & Heq).
  pose proof (Hround EmptyString (letters n1)) as H1.
  pose proof (Hround EmptyString (letters n2)) as H2.
  rewrite Heq, H2 in H1. injection H1 as H1%letters_inj. lia.
Qed.

(** C2, as the spec words it, fails: on no platform that meets the
    primitives' contracts and for no input is the payload as long as the
    fixed fields plus the ciphertext. *)
Lemma payload_has_no_ciphertext_field :
  ¬ ∃ (W : WebPlatform) (L : PlatformLaws W) (H : Helpers W) (input key : string)
      (e : Entropy),
      let a := (@enhancedVortexEncrypt_run W H input key e).1 in
      length (@enhancedVortexEncrypt W (with_spec_codec H) input key e).1 =
      (16 + 12 + 64 + 64 + length (encrypted (asm_processed a)))%nat.
Proof.
  intros (W & L & H & input & key & e & Hlen). cbv zeta in Hlen.
  destruct (run_lengths H input key e) as (Ls & Li & Lh & Ld & Le).
  rewrite with_spec_codec_payload, !length_app in Hlen. cbv zeta in *. lia.
Qed.

(** ** The verification path *)

(** C7: a byte sequence shorter than 156 bytes is rejected by
    [unprotect] with [FormatError], and the call has performed no key
    derivation, HMAC, digest or decryption. *)
Theorem unprotect_rejects_short_payload {W : WebPlatform}
    (deriveCryptoKey : CryptoKey → list Z → algorithm → Z → usage → CryptoKey)
    (exportKeyMaterial : CryptoKey → list Z)
    (applyDynamicSubstitution invertSubstitution : list Z → list Z → list Z)
    (aeadDecrypt : CryptoKey → list Z → list Z → option (list Z))
    (secret : string) (payload : list Z) :
  (length payload < 156)%nat →
  Verify.run (Verify.unprotect deriveCryptoKey exportKeyMaterial applyDynamicSubstitution
                invertSubstitution aeadDecrypt secret payload)
  = (inl Verify.FormatError, []).
Proof.
  intros Hlen. unfold Verify.run, Verify.unprotect, Verify.bind, Verify.decode.
  by rewrite decide_True by (simpl; lia).
Qed.

(** ** The properties at work on the small platform *)

Lemma toy_laws : PlatformLaws Toy.platform.
Proof.
  split;
    cbv [getRandomValues encrypt sign digest Toy.platform Toy.random Toy.fold64 Toy.mask fst].
  - intros n e. apply length_replicate.
  - intros n e. apply Forall_replicate. unfold byte. apply Z.mod_pos_bound. lia.
  - intros k iv data. by rewrite length_app, length_imap, length_replicate.
  - intros k data. apply length_replicate.
  - intros k data. apply Forall_replicate, ToUint8_byte.
  - intros data. apply length_replicate.
  - intros data. apply Forall_replicate, ToUint8_byte.
Qed.

Lemma payload_does_not_determine_plaintext_witness :
  ∃ P1 P2, P1 ≠ P2 ∧
    (@enhancedVortexEncrypt Toy.platform Toy.helpers P1 "pw" 0%nat).1 =
    (@enhancedVortexEncrypt Toy.platform Toy.helpers P2 "pw" 0%nat).1.
Proof.
  exact (proj1 (@payload_does_not_determine_plaintext
                  Toy.platform toy_laws Toy.helpers "pw"%string 0%nat)).
Defined.

Lemma payload_is_fixed_fields_witness :
  length (@enhancedVortexEncrypt Toy.platform (with_spec_codec Toy.helpers)
            "hello" "pw" 0%nat).1 = 156%nat
  ∧ length (encrypted (asm_processed
              (@enhancedVortexEncrypt_run Toy.platform Toy.helpers "hello" "pw" 0%nat).1))
    = 21%nat.
Proof.
  pose proof (@payload_is_fixed_fields Toy.platform toy_laws Toy.helpers
                "hello"%string "pw"%string 0%nat) as (_ & _ & _ & _ & _ & Hlen & _ & Henc).
  split; [exact Hlen|exact Henc].
Defined.

Lemma integrity_tag_is_64_bytes_witness :
  length (hmac (asm_processed
            (@enhancedVortexEncrypt_run Toy.platform Toy.helpers "hello" "pw" 0%nat).1))
  = 64%nat.
Proof.
  exact (proj1 (proj2 (@integrity_tag_is_64_bytes Toy.platform toy_laws Toy.helpers
                         "hello"%string "pw"%string 0%nat))).
Defined.

Lemma unprotect_rejects_short_payload_witness :
  (length (replicate 155 7) < 156)%nat
  ∧ Verify.run (@Verify.unprotect Toy.platform (@deriveCryptoKey _ Toy.helpers) id
                  applyDynamicSubstitution_spec (λ data _, data) (λ _ _ data, Some data)
                  "pw" (replicate 155 7))
    = (inl Verify.FormatError, []).
Proof.
  assert (length (replicate 155 7) < 156)%nat as Hlen by (vm_compute; lia).
  split; [exact Hlen|].
  exact (@unprotect_rejects_short_payload Toy.platform (@deriveCryptoKey _ Toy.helpers) id
           applyDynamicSubstitution_spec (λ data _, data) (λ _ _ data, Some data)
           "pw"%string (replicate 155 7) Hlen).
Defined.

(** * Further properties of the code *)

(** ** [applyAvalancheEffect]: where it loses everything, and where nothing *)

Lemma avalanche_mix_self b : avalanche_mix b b = 0.
Proof. unfold avalanche_mix. by rewrite Z.lxor_nilpotent. Qed.

Lemma avalanche_mix_inj b b' s :
  byte b → byte b' → byte s → avalanche_mix b s = avalanche_mix b' s → b = b'.
Proof.
  intros Hb Hb' Hs Heq.
  pose proof (lxor_byte b s Hb Hs) as Hx. pose proof (lxor_byte b' s Hb' Hs) as Hx'.
  assert (Z.lxor b s = Z.lxor b' s) as Hxor.
  { unfold avalanche_mix, byte in *.
    apply (f_equal (λ z, (z * 223) mod 256)) in Heq. simpl in Heq.
    rewrite !Z.mul_mod_idemp_l in Heq by lia.
    rewrite <-!Z.mul_assoc in Heq. change (31 * 223) with (1 + 27 * 256) in Heq.
    rewrite !Z.mul_add_distr_l, !Z.mul_1_r, !Z.mul_assoc, !Z.mod_add in Heq by lia.
    by rewrite !Z.mod_small in Heq by lia. }
  apply (f_equal (λ z, Z.lxor z s)) in Hxor. simpl in Hxor.
  by rewrite !Z.lxor_assoc, !Z.lxor_nilpotent, !Z.lxor_0_r in Hxor.
Qed.

(** The lengths at which [(index + 7) % length] is [index] itself. *)
Lemma self_partner_lengths n i :
  (i < n)%nat → ((i + 7) mod n = i)%nat ↔ (n = 1 ∨ n = 7)%nat.
Proof.
  intros Hi. split.
  - intros Hmod. pose proof (Nat.div_mod_eq (i + 7) n) as Hdiv. rewrite Hmod in Hdiv.
    assert (n * ((i + 7) / n) = 7)%nat as Hq by lia.
    clear Hdiv Hmod. revert Hq. generalize ((i + 7) / n)%nat. intros q Hq.
    assert (n ≤ 7)%nat by (destruct q; [lia|nia]).
    do 8 (destruct n as [|n]; [lia|]). lia.
  - intros [-> | ->].
    + by rewrite Nat.mod_1_r; lia.
    + do 7 (destruct i as [|i]; [done|]). lia.
Qed.

Lemma avalanche_round_self_partner state :
  Forall byte state → (length state = 1 ∨ length state = 7)%nat →
  avalanche_round state = replicate (length state) 0.
Proof.
  intros Hbytes Hlen. destruct (avalanche_round_spec state Hbytes) as (Hl & _ & Hspec).
  apply list_eq. intros i. destruct (decide (i < length state)%nat) as [Hi|Hi].
  - destruct (lookup_lt_is_Some_2 state i Hi) as [b Hb].
    rewrite (Hspec i b b Hb).
    + rewrite avalanche_mix_self. symmetry. by apply lookup_replicate_2.
    + unfold avalanche_partner.
      rewrite (proj2 (self_partner_lengths _ _ Hi) Hlen).
      by rewrite decide_False by lia.
  - rewrite !lookup_ge_None_2; [done|rewrite length_replicate; lia|lia].
Qed.

Lemma applyAvalancheEffect_self_partner buffer :
  (length buffer = 1 ∨ length buffer = 7)%nat →
  applyAvalancheEffect buffer = replicate (length buffer) 0.
Proof.
  intros Hlen. unfold applyAvalancheEffect. cbn [Nat.iter nat_rect].
  assert (length (u8_copy buffer) = length buffer) as Hc by apply length_fmap.
  assert (Forall byte (replicate (length buffer) 0)) as Hz.
  { apply Forall_replicate. unfold byte. lia. }
  rewrite (avalanche_round_self_partner (u8_copy buffer))
    by (apply u8_copy_is_bytes || by rewrite Hc).
  rewrite Hc.
  rewrite (avalanche_round_self_partner (replicate _ 0)), length_replicate
    by (done || by rewrite length_replicate).
  by rewrite (avalanche_round_self_partner (replicate _ 0)), length_replicate
    by (done || by rewrite length_replicate).
Qed.

(** X1: a buffer of exactly 1 or exactly 7 elements comes out of
    [applyAvalancheEffect] as all zeros, whatever it held: at these
    lengths [(index + 7) % length] is [index], so every byte is XORed
    with itself.  Two such buffers of the same length have the same
    image. *)
Theorem applyAvalancheEffect_erases_lengths_1_and_7 (buffer other : list Z) :
  (length buffer = 1 ∨ length buffer = 7)%nat →
  applyAvalancheEffect buffer = replicate (length buffer) 0
  ∧ (length other = length buffer →
     applyAvalancheEffect other = applyAvalancheEffect buffer).
Proof.
  intros Hlen. split; [by apply applyAvalancheEffect_self_partner|].
  intros Hother. rewrite !applyAvalancheEffect_self_partner by (done || by rewrite Hother).
  by rewrite Hother.
Qed.

Lemma applyAvalancheEffect_erases_witness :
  applyAvalancheEffect [83; 101; 99; 114; 101; 116; 33] = replicate 7 0.
Proof.
  assert (length [83; 101; 99; 114; 101; 116; 33] = 1
          ∨ length [83; 101; 99; 114; 101; 116; 33] = 7)%nat as Hlen by (right; reflexivity).
  exact (proj1 (applyAvalancheEffect_erases_lengths_1_and_7
                  [83; 101; 99; 114; 101; 116; 33] [] Hlen)).
Defined.

Lemma avalanche_round_inj s t :
  Forall byte s → Forall byte t → length s = length t →
  (length s ≠ 1 ∧ length s ≠ 7)%nat →
  avalanche_round s = avalanche_round t → s = t.
Proof.
  intros Hs Ht Hlen Hn Heq.
  destruct (avalanche_round_spec s Hs) as (Ls & Bs & Ss).
  destruct (avalanche_round_spec t Ht) as (Lt & Bt & St).
  assert (∀ k i, (length s - k ≤ i)%nat → s !! i = t !! i) as Hall.
  { induction k as [|k IH]; intros i Hi.
    { rewrite !lookup_ge_None_2; [done|lia|lia]. }
    destruct (decide (length s - k ≤ i)%nat) as [|Hlt]; [by apply IH|].
    assert (i < length s)%nat as Hi' by lia.
    destruct (lookup_lt_is_Some_2 s i Hi') as [b Hb].
    destruct (lookup_lt_is_Some_2 t i) as [b' Hb']; [lia|].
    set (j := ((i + 7) mod length s)%nat).
    assert (j < length s)%nat as Hj by (apply Nat.mod_upper_bound; lia).
    assert (j ≠ i) as Hji.
    { intros Hji. apply (self_partner_lengths _ _ Hi') in Hji. lia. }
    assert (∃ p, avalanche_partner s (avalanche_round s) i = Some p
                 ∧ avalanche_partner t (avalanche_round t) i = Some p) as (p & Hps & Hpt).
    { unfold avalanche_partner. rewrite <-Hlen, <-Heq. fold j.
      destruct (decide (j < i)%nat).
      - destruct (lookup_lt_is_Some_2 (avalanche_round s) j) as [p Hp]; [lia|]. eauto.
      - destruct (lookup_lt_is_Some_2 s j Hj) as [p Hp]. exists p. split; [done|].
        rewrite <-Hp. symmetry. apply IH. lia. }
    pose proof (Ss i b p Hb Hps) as H1. pose proof (St i b' p Hb' Hpt) as H2.
    rewrite Heq, H2 in H1. injection H1 as H1.
    rewrite Hb, Hb'. f_equal. symmetry. apply (avalanche_mix_inj _ _ p); [| | |done].
    - exact (Forall_lookup_1 _ _ _ _ Ht Hb').
    - exact (Forall_lookup_1 _ _ _ _ Hs Hb).
    - unfold avalanche_partner in Hps. destruct (decide _).
      + exact (Forall_lookup_1 _ _ _ _ Bs Hps).
      + exact (Forall_lookup_1 _ _ _ _ Hs Hps). }
  apply list_eq. intros i. apply (Hall (length s)). lia.
Qed.

(** X2: on byte buffers whose length is neither 1 nor 7 the diffusion
    pass loses nothing: two buffers with the same image are equal. *)
Theorem applyAvalancheEffect_injective (a b : list Z) :
  Forall byte a → Forall byte b →
  (length a ≠ 1 ∧ length a ≠ 7)%nat →
  applyAvalancheEffect a = applyAvalancheEffect b → a = b.
Proof.
  intros Ha Hb Hn Heq.
  assert (length a = length b) as Hlen.
  { by rewrite <-(applyAvalancheEffect_length a), Heq, applyAvalancheEffect_length. }
  unfold applyAvalancheEffect in Heq. cbn [Nat.iter nat_rect] in Heq.
  rewrite !u8_copy_bytes in Heq by done.
  destruct (avalanche_round_spec a Ha) as (La1 & Ha1 & _).
  destruct (avalanche_round_spec b Hb) as (Lb1 & Hb1 & _).
  destruct (avalanche_round_spec _ Ha1) as (La2 & Ha2 & _).
  destruct (avalanche_round_spec _ Hb1) as (Lb2 & Hb2 & _).
  apply avalanche_round_inj in Heq; [|done|done|lia|lia].
  apply avalanche_round_inj in Heq; [|done|done|lia|lia].
  by apply avalanche_round_inj in Heq.
Qed.

Lemma applyAvalancheEffect_injective_witness :
  applyAvalancheEffect [1; 2; 3] ≠ applyAvalancheEffect [1; 2; 4].
Proof.
  assert (Forall byte [1; 2; 3]) as Ha by (repeat constructor; unfold byte; lia).
  assert (Forall byte [1; 2; 4]) as Hb by (repeat constructor; unfold byte; lia).
  assert (length [1; 2; 3] ≠ 1 ∧ length [1; 2; 3] ≠ 7)%nat as Hn by (simpl; lia).
  intros Heq. pose proof (applyAvalancheEffect_injective _ _ Ha Hb Hn Heq). discriminate.
Defined.

(** X3: for a fixed key and state of the random source, all plaintexts
    that encode to exactly 7 bytes (and likewise all that encode to 1
    byte) give the same ciphertext, tag, digest and payload: the
    diffusion pass hands AES-GCM 7 (or 1) zero bytes whatever the
    plaintext was. *)
Theorem short_plaintexts_share_payload {W : WebPlatform} (H : Helpers W)
    (P1 P2 key : string) (e : Entropy) :
  length (TextEncoder_encode P2) = length (TextEncoder_encode P1) →
  (length (TextEncoder_encode P1) = 1 ∨ length (TextEncoder_encode P1) = 7)%nat →
  let a := (enhancedVortexEncrypt_run P1 key e).1 in
  encrypted (asm_processed a) =
    encrypt (asm_aesKey a) (asm_iv a) (replicate (length (TextEncoder_encode P1)) 0)
  ∧ enhancedVortexEncrypt_run P1 key e = enhancedVortexEncrypt_run P2 key e
  ∧ enhancedVortexEncrypt P1 key e = enhancedVortexEncrypt P2 key e.
Proof.
  intros Hsame Hlen a.
  assert (applyAvalancheEffect (TextEncoder_encode P1)
          = replicate (length (TextEncoder_encode P1)) 0) as H1
    by (by apply applyAvalancheEffect_self_partner).
  assert (applyAvalancheEffect (TextEncoder_encode P2)
          = replicate (length (TextEncoder_encode P1)) 0) as H2.
  { rewrite applyAvalancheEffect_self_partner by (by rewrite Hsame). by rewrite Hsame. }
  assert (enhancedVortexEncrypt_run P1 key e = enhancedVortexEncrypt_run P2 key e) as Hrun.
  { unfold enhancedVortexEncrypt_run, processData.
    destruct (getRandomValues 16 e) as [salt e1].
    destruct (getRandomValues 12 e1) as [aesIV e2]. by rewrite H1, H2. }
  split; [|split; [done|]].
  - subst a. unfold enhancedVortexEncrypt_run, processData.
    destruct (getRandomValues 16 e) as [salt e1].
    destruct (getRandomValues 12 e1) as [aesIV e2]. simpl. by rewrite H1.
  - unfold enhancedVortexEncrypt. by rewrite Hrun.
Qed.

Lemma short_plaintexts_share_payload_witness :
  @enhancedVortexEncrypt Toy.platform Toy.helpers "abcdefg" "pw" 3%nat =
  @enhancedVortexEncrypt Toy.platform Toy.helpers "1234567" "pw" 3%nat.
Proof.
  assert (length (@TextEncoder_encode Toy.platform "1234567")
          = length (@TextEncoder_encode Toy.platform "abcdefg")) as Hsame by reflexivity.
  assert (length (@TextEncoder_encode Toy.platform "abcdefg") = 1
          ∨ length (@TextEncoder_encode Toy.platform "abcdefg") = 7)%nat as Hlen
    by (right; reflexivity).
  exact (proj2 (proj2 (@short_plaintexts_share_payload Toy.platform Toy.helpers
                         "abcdefg"%string "1234567"%string "pw"%string 3%nat Hsame Hlen))).
Defined.

(** ** [createDynamicSBox] on a key without bytes *)

Lemma createDynamicSBox_Promise :
  createDynamicSBox Promise = SBox (Undefined :: (Num <$> seqZ 0 255)) (Num 255).
Proof. by vm_compute. Qed.

(** X6: called with a promise (as [vortexEncrypt] does) or with an empty
    byte array, [createDynamicSBox] computes the swap index NaN in every
    iteration; the swaps then go through the property ["NaN"] of the
    array and shift the table by one: cell 0 is [undefined], cell [i] is
    [i - 1], the value 255 ends up outside the cells, and the table is
    not a permutation of 0..255. *)
Theorem createDynamicSBox_without_key_bytes (key : object) :
  key = Promise ∨ key = Bytes [] →
  (∀ i, swapIdx key i = NaN)
  ∧ createDynamicSBox key = SBox (Undefined :: (Num <$> seqZ 0 255)) (Num 255)
  ∧ (Num 255 ∉ cells (createDynamicSBox key))
  ∧ ¬ (cells (createDynamicSBox key) ≡ₚ Num <$> seqZ 0 256).
Proof.
  intros Hkey.
  assert (createDynamicSBox key = SBox (Undefined :: (Num <$> seqZ 0 255)) (Num 255)) as Heq.
  { destruct Hkey as [-> | ->]; by vm_compute. }
  split; [|split; [done|split]].
  - intros i. destruct Hkey as [-> | ->]; [done|].
    unfold swapIdx. cbn [length_of length rem]. by rewrite decide_True by done.
  - rewrite Heq. cbn [cells]. rewrite not_elem_of_cons. split; [done|].
    intros (z & [= <-] & Hz%elem_of_seqZ)%list_elem_of_fmap. lia.
  - rewrite Heq. cbn [cells]. intros Hp.
    assert (Undefined ∈ Undefined :: (Num <$> seqZ 0 255)) as Hin by left.
    rewrite Hp in Hin. by apply list_elem_of_fmap in Hin as (z & [=] & _).
Qed.

Lemma createDynamicSBox_without_key_bytes_witness :
  createDynamicSBox (Bytes []) = SBox (Undefined :: (Num <$> seqZ 0 255)) (Num 255).
Proof.
  exact (proj1 (proj2 (createDynamicSBox_without_key_bytes (Bytes []) (or_intror eq_refl)))).
Defined.

(** ** The stages of [vortexEncrypt] *)

Lemma u8_set_bytes t k v : Forall byte t → Forall byte (u8_set t k v).
Proof.
  intros Ht. unfold u8_set. destruct k as [n| |]; [|done..].
  destruct (decide (0 ≤ n)); [|done]. apply Forall_insert; [done|apply ToUint8_byte].
Qed.

Lemma u8_set_length t k v : length (u8_set t k v) = length t.
Proof.
  unfold u8_set. destruct k as [n| |]; [|done..].
  destruct (decide (0 ≤ n)); [|done]. apply length_insert.
Qed.

Lemma permute_fold_bytes state (l : list (nat * Z)) permuted :
  Forall byte permuted →
  Forall byte (foldl (permute_step state) permuted l)
  ∧ length (foldl (permute_step state) permuted l) = length permuted.
Proof.
  revert permuted. induction l as [|ik l IH]; intros permuted Hp; [done|].
  cbn [foldl]. destruct (IH (permute_step state permuted ik)) as [Hb Hl].
  { by apply u8_set_bytes. }
  split; [done|]. rewrite Hl. apply u8_set_length.
Qed.

(** X5: the "non-linear substitution layer" of [vortexEncrypt] does not
    depend on the key: the table built from the promise maps 0 to
    [undefined] and [b] to [b - 1], so every byte of the permuted array
    is decremented, and 0 stays 0. *)
Theorem legacy_substitution_is_decrement (data masterKey : list Z) :
  let st := vortexEncrypt_stages data masterKey in
  Forall byte (stage_permuted st)
  ∧ stage_substituted st = (λ b, Z.max 0 (b - 1)) <$> stage_permuted st.
Proof.
  intros st. subst st. unfold vortexEncrypt_stages. cbv zeta.
  cbn [stage_permuted stage_substituted]. rewrite createDynamicSBox_Promise.
  match goal with |- Forall byte ?p ∧ _ => set (permuted := p) end.
  assert (Forall byte permuted) as Hbytes.
  { apply permute_fold_bytes, Forall_replicate. unfold byte. lia. }
  split; [done|]. apply list_eq. intros i. unfold u8_map.
  rewrite list_lookup_imap, list_lookup_fmap.
  destruct (permuted !! i) as [b|] eqn:Hb; [|done]. cbn [fmap option_fmap option_map].
  f_equal. assert (byte b) as [Hb0 Hb1] by (by eapply Forall_lookup_1).
  cbn [rem]. rewrite decide_False by done. rewrite Z.rem_small by lia.
  cbn [sbox_get get cells]. rewrite decide_True by lia.
  destruct (decide (b = 0)) as [->|Hnz]; [done|].
  replace (Z.to_nat b) with (S (Z.to_nat (b - 1))) by lia.
  rewrite lookup_cons_ne_0, list_lookup_fmap by done. cbn [Nat.pred].
  rewrite lookup_seqZ_lt by lia. cbn [fmap option_fmap option_map default ToUint8].
  unfold id. cbn [ToUint8]. rewrite Z.mod_small by lia. lia.
Qed.

Lemma diffusion_round_length state : length (diffusion_round state) = length state.
Proof. apply length_imap. Qed.

Lemma legacy_state_length (data : list Z) :
  length (Nat.iter 3 diffusion_round (Num <$> data)) = length data.
Proof. cbn [Nat.iter nat_rect]. by rewrite !diffusion_round_length, length_fmap. Qed.

Lemma permute_step_untouched state permuted (ik : nat * Z) (m j : nat) :
  (ik.1 < m)%nat → (m ≤ j)%nat → permute_step state permuted ik !! j = permuted !! j.
Proof.
  intros Hi Hj. unfold permute_step.
  destruct (decide (length permuted = 0%nat)) as [Hz|Hnz].
  { rewrite Hz. cbn [rem Z.of_nat]. by rewrite decide_True by done. }
  rewrite rem_nat by done. rewrite u8_set_nat.
  apply list_lookup_insert_ne. intros Heq.
  destruct (decide (j < length permuted)%nat).
  - rewrite Nat.mod_small in Heq by lia. lia.
  - pose proof (Nat.mod_upper_bound ik.1 (length permuted) Hnz). lia.
Qed.

Lemma permute_fold_untouched state (l : list (nat * Z)) permuted (m j : nat) :
  (∀ ik, ik ∈ l → (ik.1 < m)%nat) → (m ≤ j)%nat →
  foldl (permute_step state) permuted l !! j = permuted !! j.
Proof.
  revert permuted. induction l as [|ik l IH]; intros permuted Hl Hj; [done|].
  cbn [foldl]. rewrite IH by (done || intros; apply Hl; by right).
  apply (permute_step_untouched _ _ _ m); [|done]. apply Hl. by left.
Qed.

(** X7: the "key-dependent permutation" of [vortexEncrypt] writes one
    cell per key byte, at the key byte's own index: the permuted array is
    as long as the input, holds bytes, and is 0 at every position from
    the key's length on; so are the substituted and the salted arrays. *)
Theorem legacy_permutation_beyond_key (data masterKey : list Z) :
  let st := vortexEncrypt_stages data masterKey in
  length (stage_permuted st) = length data
  ∧ length (stage_salted st) = length data
  ∧ ∀ j, (length masterKey ≤ j < length data)%nat →
      stage_permuted st !! j = Some 0
      ∧ stage_substituted st !! j = Some 0
      ∧ stage_salted st !! j = Some 0.
Proof.
  intros st.
  assert (length (stage_permuted st) = length data) as Hlen.
  { subst st. unfold vortexEncrypt_stages. cbv zeta. cbn [stage_permuted].
    match goal with |- length (foldl _ ?z ?l) = _ =>
      assert (Forall byte z) as Hz by (apply Forall_replicate; unfold byte; lia);
      rewrite (proj2 (permute_fold_bytes _ l z Hz))
    end.
    by rewrite length_replicate, legacy_state_length. }
  assert (stage_salted st = stage_substituted st) as Hsalt.
  { subst st. unfold vortexEncrypt_stages. cbv zeta. cbn [stage_salted stage_substituted].
    apply u8_map_id. intros i b Hb. cbn [index length_of rem].
    assert (byte b) by (eapply Forall_lookup_1; [apply u8_map_bytes|exact Hb]).
    rewrite bitxor_undefined by done. by apply ToUint8_Num_byte. }
  assert (∀ j b, stage_permuted st !! j = Some b →
            stage_substituted st !! j
            = Some (ToUint8 (sbox_get (createDynamicSBox Promise) (rem (Num b) (Num 256)))))
    as Hsub.
  { intros j b. subst st. unfold vortexEncrypt_stages. cbv zeta.
    cbn [stage_permuted stage_substituted]. intros Hb.
    unfold u8_map. by rewrite list_lookup_imap, Hb. }
  split; [done|]. split.
  { rewrite Hsalt, <-Hlen. subst st. unfold vortexEncrypt_stages. cbv zeta.
    cbn [stage_permuted stage_substituted]. apply u8_map_length. }
  intros j Hj.
  assert (stage_permuted st !! j = Some 0) as Hp.
  { subst st. unfold vortexEncrypt_stages. cbv zeta. cbn [stage_permuted].
    rewrite (permute_fold_untouched _ _ _ (length masterKey) j); [| |lia].
    - apply lookup_replicate_2. rewrite legacy_state_length. lia.
    - intros ik (i & k & -> & Hk)%elem_of_lookup_imap. simpl.
      by eapply lookup_lt_Some. }
  split; [done|]. rewrite Hsalt, (Hsub j 0 Hp). split; by vm_compute.
Qed.

(** ** [bytesToHex] *)

Lemma hex_value_digit d : 0 ≤ d < 16 → hex_value (hex_digit d) = d.
Proof.
  intros Hd.
  assert (d = 0 ∨ d = 1 ∨ d = 2 ∨ d = 3 ∨ d = 4 ∨ d = 5 ∨ d = 6 ∨ d = 7 ∨ d = 8
          ∨ d = 9 ∨ d = 10 ∨ d = 11 ∨ d = 12 ∨ d = 13 ∨ d = 14 ∨ d = 15) as Hcases by lia.
  repeat (destruct Hcases as [->|Hcases]; [reflexivity|]). by subst d.
Qed.

Lemma hex_byte_inj a b : byte a → byte b → hex_byte a = hex_byte b → a = b.
Proof.
  unfold byte, hex_byte. intros Ha Hb [= H1 H2].
  apply (f_equal hex_value) in H1, H2.
  assert (∀ z, 0 ≤ z < 256 → 0 ≤ z / 16 < 16) as Hdiv.
  { intros z Hz. split; [apply Z.div_pos; lia|apply Z.div_lt_upper_bound; lia]. }
  assert (∀ z, 0 ≤ z mod 16 < 16) as Hmod by (intros z; apply Z.mod_pos_bound; lia).
  rewrite !hex_value_digit in H1 by auto. rewrite !hex_value_digit in H2 by auto.
  rewrite (Z.div_mod a 16), (Z.div_mod b 16) by lia. by rewrite H1, H2.
Qed.

Lemma bytesToHex_cons b buffer :
  bytesToHex (b :: buffer) =
  String (hex_digit (ToUint8 (Num b) / 16))
    (String (hex_digit (ToUint8 (Num b) mod 16)) (bytesToHex buffer)).
Proof. reflexivity. Qed.

(** X8: [bytesToHex] writes two characters per byte and loses nothing:
    the string is twice as long as the buffer, and two byte buffers with
    the same string are equal. *)
Theorem bytesToHex_lossless :
  (∀ buffer, String.length (bytesToHex buffer) = (2 * length buffer)%nat)
  ∧ (∀ a b, Forall byte a → Forall byte b → bytesToHex a = bytesToHex b → a = b).
Proof.
  split.
  - induction buffer as [|x l IH]; [done|].
    rewrite bytesToHex_cons. cbn [String.length length]. lia.
  - induction a as [|x a IH]; intros [|y b] Ha Hb Heq; [done|done|done|].
    apply Forall_cons in Ha as [Hx Ha]. apply Forall_cons in Hb as [Hy Hb].
    rewrite !bytesToHex_cons, !ToUint8_Num_byte in Heq by done.
    injection Heq as H1 H2 Hrest.
    f_equal.
    + apply hex_byte_inj; [done|done|]. unfold hex_byte. by rewrite H1, H2.
    + by apply IH.
Qed.

(** ** The diffusion rounds of [vortexEncrypt] *)

Lemma log2_below k a : 0 ≤ k → 0 ≤ a < 2 ^ k → a = 0 ∨ Z.log2 a < k.
Proof.
  intros Hk [H0 H1]. destruct (decide (a = 0)); [by left|right].
  apply Z.log2_lt_pow2; lia.
Qed.

Lemma lxor_below k a b :
  0 ≤ k → 0 ≤ a < 2 ^ k → 0 ≤ b < 2 ^ k → 0 ≤ Z.lxor a b < 2 ^ k.
Proof.
  intros Hk Ha Hb.
  assert (0 ≤ Z.lxor a b) as Hnn by (apply Z.lxor_nonneg; lia).
  split; [done|]. destruct (decide (Z.lxor a b = 0)) as [->|Hnz]; [lia|].
  apply Z.log2_lt_pow2; [lia|].
  pose proof (Z.log2_lxor a b (proj1 Ha) (proj1 Hb)).
  destruct (log2_below k a Hk Ha) as [->|?], (log2_below k b Hk Hb) as [->|?];
    rewrite ?Z.lxor_0_l, ?Z.lxor_0_r in *; try lia.
  all: apply Z.log2_lt_pow2; lia.
Qed.

Lemma lor_below k a b :
  0 ≤ k → 0 ≤ a < 2 ^ k → 0 ≤ b < 2 ^ k → 0 ≤ Z.lor a b < 2 ^ k.
Proof.
  intros Hk Ha Hb.
  assert (0 ≤ Z.lor a b) as Hnn by (apply Z.lor_nonneg; lia).
  split; [done|]. destruct (decide (Z.lor a b = 0)) as [->|Hnz]; [lia|].
  apply Z.log2_lt_pow2; [lia|].
  rewrite (Z.log2_lor a b (proj1 Ha) (proj1 Hb)).
  pose proof (Z.log2_nonneg a). pose proof (Z.log2_nonneg b).
  destruct (log2_below k a Hk Ha) as [->|?], (log2_below k b Hk Hb) as [->|?];
    rewrite ?Z.lor_0_l, ?Z.lor_0_r in *; try lia.
  all: change (Z.log2 0) with 0; lia.
Qed.

Lemma diffusion_mix_below k b s :
  0 ≤ k → 0 ≤ b < 2 ^ k → 0 ≤ s < 2 ^ k → 0 ≤ diffusion_mix b s < 2 ^ (k + 3).
Proof.
  intros Hk Hb Hs. unfold diffusion_mix.
  pose proof (lxor_below k b s Hk Hb Hs) as Hx.
  assert (2 ^ (k + 3) = 2 ^ k * 8) as Hpow by (rewrite Z.pow_add_r by lia; lia).
  apply lor_below; [lia| |].
  - rewrite Z.shiftl_mul_pow2 by lia. change (2 ^ 3) with 8. lia.
  - rewrite Z.shiftr_div_pow2 by lia. change (2 ^ 5) with 32.
    split; [apply Z.div_pos; lia|].
    apply Z.div_lt_upper_bound; [lia|]. lia.
Qed.

(** One round on integers below [2 ^ k], [k <= 28]: no operand wraps. *)
Lemma diffusion_round_plain k (zs : list Z) :
  0 ≤ k ≤ 28 → Forall (λ z, 0 ≤ z < 2 ^ k) zs →
  diffusion_round (Num <$> zs) = Num <$> diffusion_round_Z zs
  ∧ Forall (λ z, 0 ≤ z < 2 ^ (k + 3)) (diffusion_round_Z zs).
Proof.
  intros Hk Hzs.
  assert (2 ^ k ≤ 2 ^ 28) as Hpow by (apply Z.pow_le_mono_r; lia).
  assert (2 ^ (k + 3) ≤ 2 ^ 31) as Hpow' by (apply Z.pow_le_mono_r; lia).
  assert (∀ i b, zs !! i = Some b →
            ∃ s, zs !! ((i + 5) mod length zs)%nat = Some s ∧ 0 ≤ s < 2 ^ k) as Hpartner.
  { intros i b Hb. apply lookup_lt_Some in Hb.
    destruct (lookup_lt_is_Some_2 zs ((i + 5) mod length zs)%nat) as [s Hs].
    { apply Nat.mod_upper_bound. lia. }
    exists s. split; [done|]. by apply (Forall_lookup_1 _ _ _ _ Hzs Hs). }
  split.
  - apply list_eq. intros i. unfold diffusion_round, diffusion_round_Z.
    rewrite list_lookup_imap, !list_lookup_fmap, list_lookup_imap, length_fmap.
    destruct (zs !! i) as [b|] eqn:Hb; [|done]. cbn [fmap option_fmap option_map].
    f_equal. destruct (Hpartner i b Hb) as (s & Hs & Hsb).
    pose proof (Forall_lookup_1 _ _ _ _ Hzs Hb) as Hbb. cbn beta in Hbb.
    pose proof (lxor_below k b s (proj1 Hk) Hbb Hsb) as Hx.
    pose proof (diffusion_mix_below k b s (proj1 Hk) Hbb Hsb) as Hm.
    change (add (Num (Z.of_nat i)) (Num 5)) with (Num (Z.of_nat i + 5)).
    replace (Z.of_nat i + 5) with (Z.of_nat (i + 5)) by lia.
    rewrite rem_nat by (apply lookup_lt_Some in Hb; lia).
    unfold get. rewrite decide_True by lia. rewrite Nat2Z.id, list_lookup_fmap, Hs.
    cbn [fmap option_fmap option_map default].
    unfold bitor, shl, bitxor, ushr. cbn [ToInt32 ToUint32].
    change (Z.land (3 mod 2 ^ 32) 31) with 3. change (Z.land (5 mod 2 ^ 32) 31) with 5.
    unfold id. cbn [ToInt32].
    rewrite (wrap32_small b), (wrap32_small s) by lia.
    rewrite !(wrap32_small (Z.lxor b s)) by lia.
    rewrite (Z.mod_small b) by lia.
    assert (0 ≤ Z.shiftl (Z.lxor b s) 3 < 2 ^ 31) as Hsh.
    { rewrite Z.shiftl_mul_pow2 by lia. change (2 ^ 3) with 8.
      assert (2 ^ (k + 3) = 2 ^ k * 8) by (rewrite Z.pow_add_r by lia; lia). lia. }
    assert (0 ≤ Z.shiftr b 5 < 2 ^ 31) as Hshr.
    { rewrite Z.shiftr_div_pow2 by lia. change (2 ^ 5) with 32.
      split; [apply Z.div_pos; lia|]. apply Z.div_lt_upper_bound; lia. }
    rewrite !(wrap32_small (Z.shiftl _ _)), !(wrap32_small (Z.shiftr _ _)) by lia.
    unfold diffusion_mix in Hm. by rewrite wrap32_small by lia.
  - apply Forall_lookup. intros i z. unfold diffusion_round_Z.
    rewrite list_lookup_imap. destruct (zs !! i) as [b|] eqn:Hb; [|done].
    intros [= <-]. destruct (Hpartner i b Hb) as (s & -> & Hsb). cbn [default].
    apply diffusion_mix_below; [lia| |done].
    exact (Forall_lookup_1 _ _ _ _ Hzs Hb).
Qed.

(** X9: on bytes, the three diffusion rounds of [vortexEncrypt] are
    three rounds of [((b ^ s) << 3) | (b >>> 5)] in plain integer
    arithmetic, with [s] the element five places on (circularly): no
    32-bit operand wraps, nothing becomes NaN or [undefined], and every
    element of the state is an integer from 0 to below 2^17. *)
Theorem legacy_diffusion_stays_in_range (data masterKey : list Z) :
  Forall byte data →
  let zs := diffusion_round_Z (diffusion_round_Z (diffusion_round_Z data)) in
  stage_state (vortexEncrypt_stages data masterKey) = Num <$> zs
  ∧ length zs = length data
  ∧ Forall (λ z, 0 ≤ z < 2 ^ 17) zs.
Proof.
  intros Hdata zs.
  destruct (diffusion_round_plain 8 data) as [E1 B1]; [lia|done|].
  destruct (diffusion_round_plain 11 _ ltac:(lia) B1) as [E2 B2].
  destruct (diffusion_round_plain 14 _ ltac:(lia) B2) as [E3 B3].
  split; [|split; [|done]].
  - unfold vortexEncrypt_stages. cbv zeta. cbn [stage_state Nat.iter nat_rect].
    by rewrite E1, E2, E3.
  - subst zs. unfold diffusion_round_Z. by rewrite !length_imap.
Qed.

Lemma legacy_diffusion_stays_in_range_witness :
  stage_state (vortexEncrypt_stages [83; 101; 99; 114; 101; 116] [80; 97])
  = Num <$> [24684; 20002; 16992; 20014; 8716; 12].
Proof.
  assert (Forall byte [83; 101; 99; 114; 101; 116]) as Hb
    by (repeat constructor; unfold byte; lia).
  exact (proj1 (legacy_diffusion_stays_in_range [83; 101; 99; 114; 101; 116] [80; 97] Hb)).
Defined.
